(** * RRE blind test set: all-aspects accuracy audit

    A shallow embedding of [Data/rre_accuracy_audit.py] and the properties
    of its four components: the aspect normalizer, the two source loaders,
    the metric calculator and the audit driver.

    Modelling conventions.
    - A Python [str] is a [string]; the text is taken to be ASCII, so
      [str.strip] removes the ASCII white space of [str.isspace] and
      [str.lower] maps [A-Z] to [a-z]; other characters are left alone.
    - A [dict] is a [gmap]; a [set] is a [gset]; a [list] is a [list].
    - The per-review metrics and the values of the returned summary are
      exact rationals of [Q]: rounding of the binary representation is not
      modelled there.  Division is partial, as in Python, and raises
      [ZeroDivisionError] on a zero divisor.  A value printed with three
      decimals is the exact value rounded; where the exact value lies half
      way between two numerals (1/80 for one) the code prints the float
      next to it and can land on the other numeral.
    - The one number a branch of the report hangs on, the micro-F1 that is
      compared with 80, is computed in binary64, with the operations of
      [SpecFloat] in the order the code applies them.  It depends on the
      integer totals only, and the quotient of two integers is rounded
      once, as Python's true division does.
    - The files are taken after the layer that reads them: the reference
      file as the rows of [csv.DictReader], the candidate file as the lines
      of [readlines], the report as the records handed to [csv.DictWriter].
    - Of the console report, the model keeps the branch of the decision
      and the rows listed under the negative branch. *)

From Stdlib Require Import Ascii QArith Qround Lqa.
From Stdlib Require SpecFloat.
From stdpp Require Import gmap strings list fin_maps sorting.

Local Open Scope Z_scope.
#[local] Set Warnings "-clear-no-such-hyp".

(** ** Python string primitives *)

Module PyStr.

(** [str.isspace] on one ASCII character. *)
Definition is_whitespace (c : ascii) : bool :=
  match c with
  | "009" | "010" | "011" | "012" | "013"
  | "028" | "029" | "030" | "031" | " " => true
  | _ => false
  end%char.

Definition is_quote (c : ascii) : bool :=
  match c with "034" => true | _ => false end%char.

Fixpoint lstrip_by (p : ascii → bool) (s : string) : string :=
  match s with
  | "" => ""
  | String c s' => if p c then lstrip_by p s' else s
  end.

Fixpoint rstrip_by (p : ascii → bool) (s : string) : string :=
  match s with
  | "" => ""
  | String c s' =>
      match rstrip_by p s' with
      | "" => if p c then "" else String c ""
      | r => String c r
      end
  end.

Definition strip_by (p : ascii → bool) (s : string) : string :=
  lstrip_by p (rstrip_by p s).

(** [s.strip()] *)
Definition strip : string → string := strip_by is_whitespace.

(** [s.strip(q)] where [q] is the one-character string of a double quote *)
Definition strip_quotes : string → string := strip_by is_quote.

Definition lower_char (c : ascii) : ascii :=
  let n := Ascii.N_of_ascii c in
  if ((65 <=? n) && (n <=? 90))%N then Ascii.ascii_of_N (n + 32) else c.

(** [s.lower()] *)
Fixpoint lower (s : string) : string :=
  match s with
  | "" => ""
  | String c s' => String (lower_char c) (lower s')
  end.

(** [s.split(sep)] for a one-character separator: never the empty list. *)
Fixpoint split (sep : ascii) (s : string) : list string :=
  match s with
  | "" => [""]
  | String c s' =>
      if Ascii.eqb c sep then "" :: split sep s'
      else match split sep s' with
           | [] => [String c ""]
           | p :: ps => String c p :: ps
           end
  end.

(** [sep.join(l)] *)
Fixpoint join (sep : string) (l : list string) : string :=
  match l with
  | [] => ""
  | [x] => x
  | x :: l' => x +:+ sep +:+ join sep l'
  end.

(** Truth value of a string: [if s:] *)
Definition truthy (s : string) : bool :=
  match s with "" => false | _ => true end.

(** The double quote and the line feed, as one-character strings. *)
Definition quote : string := String "034" "".
Definition newline : string := String "010" "".

(** Vocabulary for stating what the primitives do. *)
Fixpoint all_chars (p : ascii → bool) (s : string) : bool :=
  match s with
  | "" => true
  | String c s' => p c && all_chars p s'
  end.

Definition first_char (s : string) : option ascii :=
  match s with "" => None | String c _ => Some c end.

Fixpoint last_char (s : string) : option ascii :=
  match s with
  | "" => None
  | String c s' => match s' with "" => Some c | _ => last_char s' end
  end.

(** Neither the first nor the last character satisfies [p]. *)
Definition clean_ends (p : ascii → bool) (s : string) : Prop :=
  (∀ c, first_char s = Some c → p c = false) ∧
  (∀ c, last_char s = Some c → p c = false).

End PyStr.

(** ** The aspect normalizer *)

(** The literal [mapping] of [normalize_aspect_name], in source order. *)
Definition mapping_items : list (string * string) :=
  [ ("material/ quality", "Material/Quality");
    ("material/quality", "Material/Quality");
    ("sizing/fit", "Sizing/Fit");
    ("fit/sizing", "Sizing/Fit");
    ("comfort", "Comfort");
    ("style", "Color/Aesthetics");
    ("color/aesthetics", "Color/Aesthetics");
    ("durability", "Durability");
    ("shipping/packaging", "Shipping/Packaging");
    ("instruction/ ux", "Instructions/UX");
    ("instructions/ux", "Instructions/UX");
    ("value/price", "Value/Price") ].

Definition mapping : gmap string string := list_to_map mapping_items.

(** The canonical vocabulary: the values of the synonym table. *)
Definition canonical (label : string) : Prop := label ∈ mapping_items.*2.

Definition normalize_aspect_name (aspect : string) : string :=
  let aspect := PyStr.strip aspect in
  let aspect_lower := PyStr.lower aspect in
  match mapping !! aspect_lower with
  | Some standard => standard
  | None => aspect
  end.

(** ** Python numbers *)

Module PyNum.

(** [a < b] on floats. *)
Definition Qltb (a b : Q) : bool := negb (Qle_bool b a).

(** [a / b]: true division, [None] standing for [ZeroDivisionError]. *)
Definition div (a b : Q) : option Q :=
  if Qeq_bool b 0 then None else Some (a / b)%Q.

(** [len(...)] and the other counts are Python integers. *)
Definition len {A} (l : list A) : Z := Z.of_nat (length l).
Definition set_len (s : gset string) : Z := Z.of_nat (size s).

(** Nearest integer, ties to the even one: the rounding of [format]. *)
Definition round_half_even (q : Q) : Z :=
  let f := Qfloor q in
  let r := (q - inject_Z f)%Q in
  if Qltb r (1 # 2) then f
  else if Qltb (1 # 2) r then f + 1
  else if Z.even f then f else f + 1.

(** The text of a number printed with three decimals, held as the
    decimal numeral it spells: its count of thousandths. *)
Record fixed3 := Fixed3 { thousandths : Z }.

(** [f"{x:.3f}"] *)
Definition format_3f (x : Q) : fixed3 :=
  Fixed3 (round_half_even (x * 1000)%Q).

(** [float(text)] on such a text. *)
Definition float_of (d : fixed3) : Q := (thousandths d # 1000)%Q.

End PyNum.

(** ** Binary64, for the decision *)

Module B64.
Import SpecFloat.

Definition prec : Z := 53.
Definition emax : Z := 1024.

Definition zero : spec_float := S754_zero false.

(** An integer as it stands, before any rounding. *)
Definition exact (z : Z) : spec_float :=
  match z with
  | Z0 => zero
  | Zpos p => S754_finite false p 0
  | Zneg p => S754_finite true p 0
  end.

(** [float(z)]: the integer rounded to binary64. *)
Definition of_int (z : Z) : spec_float := binary_normalize prec emax z 0 false.

Definition mul : spec_float → spec_float → spec_float := SFmul prec emax.
Definition add : spec_float → spec_float → spec_float := SFadd prec emax.
Definition ltb : spec_float → spec_float → bool := SFltb.
Definition leb : spec_float → spec_float → bool := SFleb.

(** [y == 0.0], true of both zeros. *)
Definition is_zero (y : spec_float) : bool := SFeqb y zero.

(** [a / b] on two integers: the quotient rounded once. *)
Definition truediv (a b : Z) : option spec_float :=
  if b =? 0 then None else Some (SFdiv prec emax (exact a) (exact b)).

(** [x / y] on two floats. *)
Definition div (x y : spec_float) : option spec_float :=
  if is_zero y then None else Some (SFdiv prec emax x y).

(** [total_tp / (total_tp + other) * 100 if (total_tp + other) > 0 else 0] *)
Definition micro_ratio (total_tp other : Z) : option spec_float :=
  if 0 <? total_tp + other
  then q ← truediv total_tp (total_tp + other); Some (mul q (of_int 100))
  else Some zero.

(** The [if micro_recall + micro_precision > 0: ... else: micro_f1 = 0]
    block. *)
Definition micro_f1_of (micro_recall micro_precision : spec_float)
    : option spec_float :=
  if ltb zero (add micro_recall micro_precision)
  then div (mul (of_int 2) (mul micro_recall micro_precision))
           (add micro_recall micro_precision)
  else Some zero.

(** [micro_f1] from the three totals. *)
Definition micro_f1 (total_tp total_fn total_fp : Z) : option spec_float :=
  micro_recall ← micro_ratio total_tp total_fn;
  micro_precision ← micro_ratio total_tp total_fp;
  micro_f1_of micro_recall micro_precision.

End B64.

(** ** Python lists: truth value and the stable [sorted(..., key=...)] *)

Definition is_empty {A} (l : list A) : bool :=
  match l with [] => true | _ => false end.

Section sorted_by_key.
Context {A : Type} (key : A → Q).

(** [x] goes before the first element whose key is not smaller: elements
    with equal keys keep their order, as Python's stable sort has it. *)
Fixpoint insert_by_key (x : A) (l : list A) : list A :=
  match l with
  | [] => [x]
  | y :: l' =>
      if Qle_bool (key x) (key y) then x :: l
      else y :: insert_by_key x l'
  end.

Definition sorted_by_key (l : list A) : list A :=
  foldr insert_by_key [] l.

End sorted_by_key.

(** [sorted(s)] for a set of strings, ordered by code points. *)
Definition sorted_strings (s : gset string) : list string :=
  merge_sort String.le (elements s).

(** ** The source loaders *)

(** One row of [csv.DictReader]: the two columns the loader reads. *)
Record rita_row := RitaRow { row_Review_ID : string; row_Rita_Aspect : string }.

(** Body of the loop of [load_rita_aspects]. *)
Definition rita_row_aspects (row : rita_row) : list string :=
  let aspects := normalize_aspect_name <$> PyStr.split "," (row_Rita_Aspect row) in
  List.filter PyStr.truthy aspects.

Definition load_rita_step (reviews : gmap string (list string)) (row : rita_row)
    : gmap string (list string) :=
  <[row_Review_ID row := rita_row_aspects row]> reviews.

Definition load_rita_aspects (rows : list rita_row) : gmap string (list string) :=
  foldl load_rita_step ∅ rows.

(** [reviews[k].append(x)] on a [defaultdict(list)]: a missing key starts
    from the empty list. *)
Definition dd_append (k x : string) (reviews : gmap string (list string))
    : gmap string (list string) :=
  <[k := default [] (reviews !! k) ++ [x]]> reviews.

(** Body of the loop of [load_gemini_aspects]; a line with fewer than two
    parts is skipped by [continue]. *)
Definition load_gemini_step (reviews : gmap string (list string)) (line : string)
    : gmap string (list string) :=
  let line := PyStr.strip_quotes (PyStr.strip line) in
  let parts := PyStr.split "," line in
  match parts with
  | part0 :: part1 :: _ =>
      let review_id := PyStr.strip part0 in
      let aspect := PyStr.strip part1 in
      let aspect_normalized := normalize_aspect_name aspect in
      if PyStr.truthy aspect_normalized
      then dd_append review_id aspect_normalized reviews
      else reviews
  | _ => reviews
  end.

(** [lines] is the result of [readlines]; the first line is the header. *)
Definition load_gemini_aspects (lines : list string) : gmap string (list string) :=
  foldl load_gemini_step ∅ (drop 1 lines).

(** ** The metric calculator *)

Record metrics := Metrics {
  recall : Q; precision : Q; f1 : Q;
  tp : Z; fn : Z; fp : Z;
  details : string
}.

(** [set(a.lower() for a in aspects)] *)
Definition lower_set (aspects : list string) : gset string :=
  list_to_set (PyStr.lower <$> aspects).

Definition details_of (matches missed extra : gset string) (fn fp : Z) : string :=
  let details :=
    (if decide (matches = ∅) then []
     else ["Matched: " +:+ PyStr.join ", " (sorted_strings matches)]) ++
    (if 0 <? fn then ["Missed: " +:+ PyStr.join ", " (sorted_strings missed)]
     else []) ++
    (if 0 <? fp then ["Extra: " +:+ PyStr.join ", " (sorted_strings extra)]
     else []) in
  if is_empty details then "Perfect match" else PyStr.join " | " details.

(** The [if recall + precision > 0: ... else: f1 = 0.0] block. *)
Definition f1_of (recall precision : Q) : option Q :=
  if PyNum.Qltb 0 (recall + precision)
  then PyNum.div (2 * (recall * precision)) (recall + precision)
  else Some 0%Q.

Definition calculate_metrics (rita_aspects gemini_aspects : list string)
    : option metrics :=
  if is_empty rita_aspects && is_empty gemini_aspects then
    Some (Metrics 1 1 1 0 0 0 "Both empty")
  else if is_empty rita_aspects then
    Some (Metrics 0 0 0 0 0 (PyNum.len gemini_aspects) "Rita has no aspects")
  else if is_empty gemini_aspects then
    Some (Metrics 0 0 0 0 (PyNum.len rita_aspects) 0 "Gemini found no aspects")
  else
    let rita_set := lower_set rita_aspects in
    let gemini_set := lower_set gemini_aspects in
    let matches := rita_set ∩ gemini_set in
    let tp := PyNum.set_len matches in
    let fn := PyNum.set_len (rita_set ∖ gemini_set) in
    let fp := PyNum.set_len (gemini_set ∖ rita_set) in
    recall ←
      (if 0 <? PyNum.set_len rita_set
       then PyNum.div (inject_Z tp) (inject_Z (PyNum.set_len rita_set))
       else Some 0%Q);
    precision ←
      (if 0 <? PyNum.set_len gemini_set
       then PyNum.div (inject_Z tp) (inject_Z (PyNum.set_len gemini_set))
       else Some 0%Q);
    f1 ← f1_of recall precision;
    Some (Metrics recall precision f1 tp fn fp
            (details_of matches (rita_set ∖ gemini_set) (gemini_set ∖ rita_set) fn fp)).

(** ** The audit driver *)

(** One entry of [results]: the dictionary built for a review, with its
    keys in insertion order. *)
Record result_row := ResultRow {
  Review_ID : string;
  Rita_Aspects : string;
  Rita_Count : Z;
  Gemini_Aspects : string;
  Gemini_Count : Z;
  True_Positives : Z;
  False_Negatives : Z;
  False_Positives : Z;
  Recall : PyNum.fixed3;
  Precision : PyNum.fixed3;
  F1_Score : PyNum.fixed3;
  Details : string
}.

(** The key of the listing of worst reviews: [float(x['F1_Score'])]. *)
Definition f1_key (x : result_row) : Q := PyNum.float_of (F1_Score x).

(** [results[0].keys()] *)
Definition fieldnames : list string :=
  [ "Review_ID"; "Rita_Aspects"; "Rita_Count"; "Gemini_Aspects"; "Gemini_Count";
    "True_Positives"; "False_Negatives"; "False_Positives";
    "Recall"; "Precision"; "F1_Score"; "Details" ].

(** What [csv.DictWriter] is asked to write, record by record. *)
Inductive csv_record :=
  | HeaderRecord (names : list string)
  | DataRecord (row : result_row).

(** The accumulators of the main loop. *)
Record audit_state := AuditState {
  results : list result_row;
  total_recall : Q; total_precision : Q; total_f1 : Q;
  total_tp : Z; total_fn : Z; total_fp : Z
}.

Definition audit_init : audit_state := AuditState [] 0 0 0 0 0 0.

(** [sorted(set(rita_data.keys()) | set(gemini_data.keys()))] *)
Definition all_reviews (rita_data gemini_data : gmap string (list string))
    : list string :=
  sorted_strings (dom rita_data ∪ dom gemini_data).

Definition aspects_cell (aspects : list string) : string :=
  if is_empty aspects then "NONE" else PyStr.join ", " aspects.

Definition make_row (review_id : string) (rita gemini : list string) (m : metrics)
    : result_row :=
  {| Review_ID := review_id;
     Rita_Aspects := aspects_cell rita;
     Rita_Count := PyNum.len rita;
     Gemini_Aspects := aspects_cell gemini;
     Gemini_Count := PyNum.len gemini;
     True_Positives := tp m;
     False_Negatives := fn m;
     False_Positives := fp m;
     Recall := PyNum.format_3f (recall m);
     Precision := PyNum.format_3f (precision m);
     F1_Score := PyNum.format_3f (f1 m);
     Details := details m |}.

(** Body of [for review_id in all_reviews]. *)
Definition audit_step (rita_data gemini_data : gmap string (list string))
    (st : audit_state) (review_id : string) : option audit_state :=
  let rita := default [] (rita_data !! review_id) in
  let gemini := default [] (gemini_data !! review_id) in
  m ← calculate_metrics rita gemini;
  Some {| results := results st ++ [make_row review_id rita gemini m];
          total_recall := total_recall st + recall m;
          total_precision := total_precision st + precision m;
          total_f1 := total_f1 st + f1 m;
          total_tp := total_tp st + tp m;
          total_fn := total_fn st + fn m;
          total_fp := total_fp st + fp m |}.

(** The row the loop builds for one review identifier. *)
Definition row_of (rita_data gemini_data : gmap string (list string))
    (review_id : string) (row : result_row) : Prop :=
  let rita := default [] (rita_data !! review_id) in
  let gemini := default [] (gemini_data !! review_id) in
  ∃ m, calculate_metrics rita gemini = Some m ∧
       row = make_row review_id rita gemini m.

Fixpoint audit_loop (rita_data gemini_data : gmap string (list string))
    (st : audit_state) (ids : list string) : option audit_state :=
  match ids with
  | [] => Some st
  | review_id :: ids' =>
      st' ← audit_step rita_data gemini_data st review_id;
      audit_loop rita_data gemini_data st' ids'
  end.

(** The [with open(output_csv, 'w') ...] block: nothing is written, not
    even a header, when [results] is empty. *)
Definition write_results (results : list result_row) : list csv_record :=
  if is_empty results then []
  else HeaderRecord fieldnames :: (DataRecord <$> results).

(** [total / num_reviews * 100 if num_reviews > 0 else 0] *)
Definition macro_average (total : Q) (num_reviews : Z) : option Q :=
  if 0 <? num_reviews
  then q ← PyNum.div total (inject_Z num_reviews); Some (q * 100)%Q
  else Some 0%Q.

(** [total_tp / (total_tp + other) * 100 if (total_tp + other) > 0 else 0] *)
Definition micro_ratio (total_tp other : Z) : option Q :=
  if 0 <? total_tp + other
  then q ← PyNum.div (inject_Z total_tp) (inject_Z (total_tp + other));
       Some (q * 100)%Q
  else Some 0%Q.

Definition micro_f1_of (micro_recall micro_precision : Q) : option Q :=
  if PyNum.Qltb 0 (micro_recall + micro_precision)
  then PyNum.div (2 * (micro_recall * micro_precision))
                 (micro_recall + micro_precision)
  else Some 0%Q.

(** [float(r['F1_Score']) < 0.50] *)
Definition below_half (r : result_row) : bool := PyNum.Qltb (f1_key r) (1 # 2).

(** The loop under "Worst Performing Reviews": the rows it prints. *)
Fixpoint worst_loop (sorted_results : list result_row) (count : nat)
    : list result_row :=
  match sorted_results with
  | [] => []
  | r :: rest =>
      if below_half r && (count <? 10)%nat
      then r :: worst_loop rest (S count)
      else worst_loop rest count
  end.

Definition worst_cases (results : list result_row) : list result_row :=
  worst_loop (sorted_by_key f1_key results) 0.

(** The branch of the report taken by the decision, with the rows listed
    by the negative branch. *)
Inductive decision :=
  | GreenLight
  | RedFlag (worst : list result_row).

(** [if decision_metric >= 80: ... else: ...], on the binary64 value. *)
Definition decide_on (decision_metric : SpecFloat.spec_float)
    (results : list result_row) : decision :=
  if B64.leb (B64.of_int 80) decision_metric then GreenLight
  else RedFlag (worst_cases results).

(** The dictionary returned by [run_audit]. *)
Record summary := Summary {
  macro_f1 : Q; micro_f1 : Q; micro_recall : Q; micro_precision : Q;
  sum_tp : Z; sum_fn : Z; sum_fp : Z
}.

(** What a run leaves behind: the file written, the micro-F1 the decision
    is taken on (in binary64), the decision printed and the value returned
    (in exact arithmetic). *)
Record audit_outcome := AuditOutcome {
  artifact : list csv_record;
  decision_metric : SpecFloat.spec_float;
  verdict : decision;
  returned : summary
}.

Definition audit (rita_data gemini_data : gmap string (list string))
    : option audit_outcome :=
  st ← audit_loop rita_data gemini_data audit_init
         (all_reviews rita_data gemini_data);
  let num_reviews := PyNum.len (results st) in
  macro_recall ← macro_average (total_recall st) num_reviews;
  macro_precision ← macro_average (total_precision st) num_reviews;
  macro_f1 ← macro_average (total_f1 st) num_reviews;
  micro_recall ← micro_ratio (total_tp st) (total_fn st);
  micro_precision ← micro_ratio (total_tp st) (total_fp st);
  micro_f1 ← micro_f1_of micro_recall micro_precision;
  decision_metric ← B64.micro_f1 (total_tp st) (total_fn st) (total_fp st);
  Some {| artifact := write_results (results st);
          decision_metric := decision_metric;
          verdict := decide_on decision_metric (results st);
          returned := Summary macro_f1 micro_f1 micro_recall micro_precision
                        (total_tp st) (total_fn st) (total_fp st) |}.

Definition run_audit (rita_csv : list rita_row) (gemini_csv : list string)
    : option audit_outcome :=
  audit (load_rita_aspects rita_csv) (load_gemini_aspects gemini_csv).

(** ** The candidate line as spec section 4.3 words it

    For comparison with [load_gemini_step]: trailing white space is
    stripped, then one layer of quote characters, a leading one and a
    trailing one, then the line is split on commas; columns 0 and 1 are
    read, trimmed as the loader trims them. *)

Definition strip_one_quote_layer (s : string) : string :=
  let s := match s with
           | String c s' => if PyStr.is_quote c then s' else s
           | "" => ""
           end in
  match PyStr.last_char s with
  | Some c => if PyStr.is_quote c
              then String.substring 0 (String.length s - 1) s else s
  | None => s
  end.

Definition described_line_fields (line : string) : option (string * string) :=
  let line := strip_one_quote_layer (PyStr.rstrip_by PyStr.is_whitespace line) in
  match PyStr.split "," line with
  | part0 :: part1 :: _ => Some (PyStr.strip part0, PyStr.strip part1)
  | _ => None
  end.

(** The columns [load_gemini_step] reads from a line, where it reads any. *)
Definition gemini_line_fields (line : string) : option (string * string) :=
  match PyStr.split "," (PyStr.strip_quotes (PyStr.strip line)) with
  | part0 :: part1 :: _ => Some (PyStr.strip part0, PyStr.strip part1)
  | _ => None
  end.

(** The key and the label a line adds to the mapping, if it adds one. *)
Definition gemini_line_entry (line : string) : option (string * string) :=
  '(review_id, aspect) ← gemini_line_fields line;
  let aspect_normalized := normalize_aspect_name aspect in
  if PyStr.truthy aspect_normalized then Some (review_id, aspect_normalized)
  else None.

(** The labels the lines add under one key, in file order. *)
Definition gemini_labels_of (review_id : string) (lines : list string) : list string :=
  omap (λ line, '(k, a) ← gemini_line_entry line;
                if decide (k = review_id) then Some a else None) lines.

(** ** Vocabulary for the further properties *)

Definition no_comma (s : string) : Prop :=
  PyStr.all_chars (λ c, negb (Ascii.eqb c ",")) s = true.

(** A label as the loaders store it: not empty, trimmed, and left as it
    is by the normalizer. *)
Definition stored_label (a : string) : Prop :=
  a ≠ "" ∧ normalize_aspect_name a = a ∧
  PyStr.clean_ends PyStr.is_whitespace a ∧ no_comma a.

(** The sum of an integer column over the rows of the report. *)
Definition column_sum (col : result_row → Z) (rows : list result_row) : Z :=
  foldr Z.add 0 (col <$> rows).

(** What the accumulators of the main loop satisfy after each review. *)
Definition audit_inv (st : audit_state) : Prop :=
  total_tp st = column_sum True_Positives (results st) ∧
  total_fn st = column_sum False_Negatives (results st) ∧
  total_fp st = column_sum False_Positives (results st) ∧
  0 ≤ total_tp st ∧ 0 ≤ total_fn st ∧ 0 ≤ total_fp st ∧
  (0 <= total_recall st <= inject_Z (PyNum.len (results st)))%Q ∧
  (0 <= total_precision st <= inject_Z (PyNum.len (results st)))%Q ∧
  (0 <= total_f1 st <= inject_Z (PyNum.len (results st)))%Q.

(** The values of the three guarded divisions of the summary. *)
Definition macro_val (total : Q) (num_reviews : Z) : Q :=
  if 0 <? num_reviews then (total / inject_Z num_reviews * 100)%Q else 0%Q.

Definition micro_val (total_tp other : Z) : Q :=
  if 0 <? total_tp + other
  then (inject_Z total_tp / inject_Z (total_tp + other) * 100)%Q else 0%Q.

Definition harmonic_val (r p : Q) : Q :=
  if PyNum.Qltb 0 (r + p) then (2 * (r * p) / (r + p))%Q else 0%Q.

(** Ascending keys, and [R2] among elements with equal keys. *)
Definition lex_le {A : Type} (key : A → Q) (R2 : relation A) (a b : A) : Prop :=
  (key a < key b)%Q ∨ ((key a == key b)%Q ∧ R2 a b).

(** The order of the listing of worst reviews: by the printed F1, and by
    review identifier among rows with the same printed F1. *)
Definition listing_le (a b : result_row) : Prop :=
  (f1_key a < f1_key b)%Q ∨
  ((f1_key a == f1_key b)%Q ∧ String.le (Review_ID a) (Review_ID b)).

(** ** Label lists for the larger examples

    [numbered_labels tag n] is [n] distinct lower-case labels: the tag
    followed by two letters. *)



(** * Properties *)

(** ** Strings *)

Module PyStrFacts.
Import PyStr.

Section strip.
Variable p : ascii → bool.

Lemma lstrip_by_idemp s : lstrip_by p (lstrip_by p s) = lstrip_by p s.
Proof.
  induction s as [|c s IH]; simpl; [done|].
  destruct (p c) eqn:Hc; [done|]. simpl. by rewrite Hc.
Qed.

Lemma rstrip_by_idemp s : rstrip_by p (rstrip_by p s) = rstrip_by p s.
Proof.
  induction s as [|c s IH]; simpl; [done|].
  destruct (rstrip_by p s) as [|d r] eqn:Hr.
  - destruct (p c) eqn:Hc; simpl; [done|]. by rewrite Hc.
  - simpl in *. destruct (rstrip_by p r); by rewrite IH.
Qed.

(** Dropping a prefix keeps a string with no trailing [p] as such. *)
Lemma rstrip_by_lstrip_by t :
  rstrip_by p t = t → rstrip_by p (lstrip_by p t) = lstrip_by p t.
Proof.
  induction t as [|c t IH]; [done|]. intros Ht. simpl lstrip_by.
  destruct (p c) eqn:Hc; [|exact Ht].
  apply IH. simpl in Ht. rewrite Hc in Ht.
  destruct (rstrip_by p t); by simplify_eq.
Qed.

Lemma strip_by_idemp s : strip_by p (strip_by p s) = strip_by p s.
Proof.
  unfold strip_by.
  rewrite rstrip_by_lstrip_by by apply rstrip_by_idemp.
  apply lstrip_by_idemp.
Qed.
End strip.

Lemma strip_idemp s : strip (strip s) = strip s.
Proof. apply strip_by_idemp. Qed.

Lemma split_not_nil sep s : split sep s ≠ [].
Proof.
  destruct s as [|c s]; simpl; [done|].
  destruct (Ascii.eqb c sep); [done|]. by destruct (split sep s).
Qed.

Lemma app_cons c s t : String c s +:+ t = String c (s +:+ t).
Proof. reflexivity. Qed.

Lemma app_nil_l s : "" +:+ s = s.
Proof. reflexivity. Qed.

Lemma app_nil_r s : s +:+ "" = s.
Proof. induction s as [|c s IH]; [done|]. by rewrite app_cons, IH. Qed.

Lemma app_assoc s t u : (s +:+ t) +:+ u = s +:+ (t +:+ u).
Proof. induction s as [|c s IH]; [done|]. by rewrite !app_cons, IH. Qed.

Section strip_spec.
Variable p : ascii → bool.

Lemma lstrip_by_spec s :
  ∃ pre, s = pre +:+ lstrip_by p s ∧ all_chars p pre = true ∧
         ∀ c, first_char (lstrip_by p s) = Some c → p c = false.
Proof.
  induction s as [|c s (pre & Hs & Hpre & Hfirst)].
  - by exists "".
  - simpl. destruct (p c) eqn:Hc.
    + exists (String c pre). rewrite app_cons, <- Hs. simpl. by rewrite Hc, Hpre.
    + exists "". split_and!; [done..|]. simpl. by intros ? [= <-].
Qed.

Lemma rstrip_by_spec s :
  ∃ post, s = rstrip_by p s +:+ post ∧ all_chars p post = true ∧
          ∀ c, last_char (rstrip_by p s) = Some c → p c = false.
Proof.
  induction s as [|c s (post & Hs & Hpost & Hlast)].
  - by exists "".
  - simpl. destruct (rstrip_by p s) as [|d r] eqn:Hr.
    + rewrite app_nil_l in Hs. subst post. destruct (p c) eqn:Hc.
      * exists (String c s). simpl. by rewrite Hc, Hpost.
      * exists s. split_and!; [done..|]. simpl. by intros ? [= <-].
    + exists post. rewrite app_cons, <- Hs. split_and!; done.
Qed.

Lemma lstrip_by_last_char t :
  (∀ c, last_char t = Some c → p c = false) →
  ∀ c, last_char (lstrip_by p t) = Some c → p c = false.
Proof.
  induction t as [|d t IH]; [done|]. intros Hlast. simpl lstrip_by.
  destruct (p d) eqn:Hd; [|exact Hlast].
  destruct t as [|e t]; [done|]. apply IH. exact Hlast.
Qed.

(** [strip_by] removes a run of [p] characters at each end, and all of it. *)
Lemma strip_by_spec s :
  ∃ pre post, s = pre +:+ strip_by p s +:+ post ∧
              all_chars p pre = true ∧ all_chars p post = true ∧
              clean_ends p (strip_by p s).
Proof.
  destruct (rstrip_by_spec s) as (post & Hs & Hpost & Hlast).
  destruct (lstrip_by_spec (rstrip_by p s)) as (pre & Hr & Hpre & Hfirst).
  exists pre, post. unfold strip_by. split_and!; [|done..|].
  - by rewrite <- app_assoc, <- Hr.
  - split; [done|]. by apply lstrip_by_last_char.
Qed.
End strip_spec.

(** Splitting loses nothing but the separators, and leaves none in a part. *)
Lemma join_split sep s : join (String sep "") (split sep s) = s.
Proof.
  induction s as [|c s IH]; [done|]. simpl.
  destruct (Ascii.eqb_spec c sep) as [->|Hne].
  - pose proof (split_not_nil sep s).
    destruct (split sep s) as [|part parts] eqn:Hsplit; [done|].
    change (join (String sep "") ("" :: part :: parts))
      with ("" +:+ String sep "" +:+ join (String sep "") (part :: parts)).
    by rewrite IH.
  - destruct (split sep s) as [|part parts] eqn:Hsplit; [by destruct s|].
    destruct parts as [|part' parts]; simpl in *; [by rewrite IH|].
    rewrite app_cons. by rewrite IH.
Qed.

Lemma split_no_sep sep s :
  Forall (λ part, all_chars (λ c, negb (Ascii.eqb c sep)) part = true) (split sep s).
Proof.
  induction s as [|c s IH]; simpl; [by repeat constructor|].
  destruct (Ascii.eqb c sep) eqn:Hc; [by constructor|].
  destruct (split sep s) as [|part parts]; [repeat constructor; simpl; by rewrite Hc|].
  apply Forall_cons in IH as [Hpart Hparts].
  constructor; [|done]. simpl. by rewrite Hc, Hpart.
Qed.

Lemma strip_all_whitespace s : all_chars is_whitespace s = true → strip s = "".
Proof.
  intros Hs. unfold strip, strip_by.
  assert (rstrip_by is_whitespace s = "") as ->; [|done].
  induction s as [|c s IH]; [done|]. simpl in *.
  apply andb_true_iff in Hs as [Hc Hs]. by rewrite IH, Hc.
Qed.

End PyStrFacts.

(** ** The aspect normalizer *)

Lemma mapping_lookup_Some k v : mapping !! k = Some v → (k, v) ∈ mapping_items.
Proof. apply elem_of_list_to_map_2. Qed.

Lemma mapping_value_canonical k v : mapping !! k = Some v → canonical v.
Proof.
  intros H%mapping_lookup_Some. unfold canonical.
  apply list_elem_of_fmap. by exists (k, v).
Qed.

(** A canonical label is a fixed point of the normalizer. *)
Lemma normalize_canonical v : canonical v → normalize_aspect_name v = v.
Proof.
  unfold canonical. intros Hv.
  repeat (apply elem_of_cons in Hv as [-> | Hv]; [by vm_compute|]).
  by apply elem_of_nil in Hv.
Qed.

Lemma normalize_unknown x :
  mapping !! PyStr.lower (PyStr.strip x) = None →
  normalize_aspect_name x = PyStr.strip x.
Proof. unfold normalize_aspect_name. by intros ->. Qed.

Lemma normalize_idempotent x :
  normalize_aspect_name (normalize_aspect_name x) = normalize_aspect_name x.
Proof.
  destruct (mapping !! PyStr.lower (PyStr.strip x)) as [v|] eqn:Hx.
  - assert (normalize_aspect_name x = v) as -> by (unfold normalize_aspect_name; by rewrite Hx).
    eapply normalize_canonical, mapping_value_canonical, Hx.
  - rewrite (normalize_unknown x Hx).
    unfold normalize_aspect_name. by rewrite PyStrFacts.strip_idemp, Hx.
Qed.

(** C3: the normalizer is idempotent (on every input, so in particular on
    the canonical labels, which it leaves unchanged); the table is looked up
    with the trimmed, lower-cased input, so two inputs that agree after
    trimming and lower-casing and hit the table normalize alike, as
    "Material/ Quality" and "material/quality" do, both to
    "Material/Quality"; an input that matches no entry comes back trimmed,
    with its case as it was. *)
Theorem normalize_aspect_name_spec :
  (∀ x, normalize_aspect_name (normalize_aspect_name x) = normalize_aspect_name x) ∧
  (∀ c, canonical c → normalize_aspect_name c = c) ∧
  (∀ x y, PyStr.lower (PyStr.strip x) = PyStr.lower (PyStr.strip y) →
          is_Some (mapping !! PyStr.lower (PyStr.strip x)) →
          normalize_aspect_name x = normalize_aspect_name y) ∧
  (normalize_aspect_name "Material/ Quality" = "Material/Quality" ∧
   normalize_aspect_name "material/quality" = "Material/Quality") ∧
  (∀ x, mapping !! PyStr.lower (PyStr.strip x) = None →
        normalize_aspect_name x = PyStr.strip x).
Proof.
  split_and!.
  - apply normalize_idempotent.
  - apply normalize_canonical.
  - intros x y Hxy [v Hv]. unfold normalize_aspect_name.
    rewrite <- Hxy. by rewrite Hv.
  - by vm_compute.
  - by vm_compute.
  - apply normalize_unknown.
Qed.

(** The unknown label " Zipper Pull " comes back trimmed, capitals kept. *)
Lemma normalize_aspect_name_spec_witness :
  normalize_aspect_name " Zipper Pull " = "Zipper Pull".
Proof.
  destruct normalize_aspect_name_spec as (_ & _ & _ & _ & Hunknown).
  apply (Hunknown " Zipper Pull "). vm_compute. reflexivity.
Defined.

(** ** Numbers *)

Module PyNumFacts.
Import PyNum.

Lemma Qltb_lt a b : Qltb a b = true ↔ (a < b)%Q.
Proof.
  unfold Qltb. rewrite negb_true_iff, <- not_true_iff_false, Qle_bool_iff.
  split; [apply Qnot_le_lt | apply Qlt_not_le].
Qed.

Lemma Qltb_ge a b : Qltb a b = false ↔ (b <= a)%Q.
Proof. unfold Qltb. by rewrite negb_false_iff, Qle_bool_iff. Qed.

Lemma div_Some a b : ¬ (b == 0)%Q → div a b = Some (a / b)%Q.
Proof.
  intros Hb. unfold div. destruct (Qeq_bool b 0) eqn:E; [|done].
  by apply Qeq_bool_eq in E.
Qed.

Lemma div_pos_Some a (n : Z) : 0 < n → div a (inject_Z n) = Some (a / inject_Z n)%Q.
Proof.
  intros Hn. apply div_Some. unfold Qeq, inject_Z. simpl. lia.
Qed.

(** A ratio of counts [a / b] with [0 <= a <= b] and [0 < b]. *)
Lemma ratio_bounds (a b : Z) :
  0 ≤ a → a ≤ b → 0 < b → (0 <= inject_Z a / inject_Z b <= 1)%Q.
Proof.
  intros Ha Hab Hb.
  assert (0 < inject_Z b)%Q as Hb' by (unfold Qlt, inject_Z; simpl; lia).
  split.
  - apply Qle_shift_div_l; [done|]. unfold Qle, inject_Z. simpl. lia.
  - apply Qle_shift_div_r; [done|]. unfold Qle, inject_Z. simpl. lia.
Qed.

Lemma harmonic_bounds (r p : Q) :
  (0 <= r <= 1)%Q → (0 <= p <= 1)%Q → (0 < r + p)%Q →
  (0 <= 2 * (r * p) / (r + p) <= 1)%Q.
Proof.
  intros [Hr0 Hr1] [Hp0 Hp1] Hpos. split.
  - apply Qle_shift_div_l; [done|]. nra.
  - apply Qle_shift_div_r; [done|]. nra.
Qed.

End PyNumFacts.

(** ** The metric calculator *)

Section calculator_facts.
Import PyNum PyNumFacts.

Lemma is_empty_false {A} (l : list A) : is_empty l = false ↔ l ≠ [].
Proof. by destruct l. Qed.

Lemma set_len_nonneg (s : gset string) : 0 ≤ set_len s.
Proof. unfold set_len. lia. Qed.

Lemma lower_set_nonempty (l : list string) : l ≠ [] → 0 < set_len (lower_set l).
Proof.
  destruct l as [|a l]; [done|]. intros _. unfold set_len, lower_set.
  assert (size (list_to_set (C:=gset string) (PyStr.lower <$> a :: l)) ≠ 0%nat); [|lia].
  intros Hsz%size_empty_inv. rewrite fmap_cons, list_to_set_cons in Hsz.
  set_solver.
Qed.

(** A set splits into what it shares with another and what it does not. *)
Lemma set_len_split (X Y : gset string) :
  set_len (X ∩ Y) + set_len (X ∖ Y) = set_len X.
Proof.
  unfold set_len. rewrite <- Nat2Z.inj_add, <- size_union by set_solver.
  do 2 f_equal. apply set_eq. intros x.
  rewrite elem_of_union, elem_of_intersection, elem_of_difference.
  destruct (decide (x ∈ Y)); naive_solver.
Qed.

Lemma set_len_intersection_comm (X Y : gset string) :
  set_len (X ∩ Y) = set_len (Y ∩ X).
Proof. unfold set_len. do 2 f_equal. set_solver. Qed.

Lemma f1_of_eq (r p : Q) :
  f1_of r p = Some (if Qltb 0 (r + p) then 2 * (r * p) / (r + p) else 0)%Q.
Proof.
  unfold f1_of. destruct (Qltb 0 (r + p)) eqn:E; [|done].
  apply div_Some. apply Qltb_lt in E. intros Hz. rewrite Hz in E.
  by apply Qlt_irrefl in E.
Qed.

(** The path below the three early returns, with every division done. *)
Lemma calculate_metrics_general (r c : list string) :
  r ≠ [] → c ≠ [] →
  let R := lower_set r in
  let C := lower_set c in
  let t := set_len (R ∩ C) in
  let rec := (inject_Z t / inject_Z (set_len R))%Q in
  let prec := (inject_Z t / inject_Z (set_len C))%Q in
  calculate_metrics r c =
    Some (Metrics rec prec
            (if Qltb 0 (rec + prec) then 2 * (rec * prec) / (rec + prec) else 0)%Q
            t (set_len (R ∖ C)) (set_len (C ∖ R))
            (details_of (R ∩ C) (R ∖ C) (C ∖ R) (set_len (R ∖ C)) (set_len (C ∖ R)))).
Proof.
  intros Hr Hc R C t rec prec. unfold calculate_metrics.
  apply is_empty_false in Hr as Hr'. apply is_empty_false in Hc as Hc'.
  rewrite Hr', Hc'. simpl.
  pose proof (lower_set_nonempty r Hr) as HR.
  pose proof (lower_set_nonempty c Hc) as HC.
  fold R C in HR, HC |- *. fold t.
  destruct (Z.ltb_spec 0 (set_len R)); [|lia].
  destruct (Z.ltb_spec 0 (set_len C)); [|lia].
  rewrite !div_pos_Some by done. simpl.
  fold rec prec. rewrite f1_of_eq. done.
Qed.

Lemma calculate_metrics_total (r c : list string) : is_Some (calculate_metrics r c).
Proof.
  destruct r as [|a r]; [by destruct c; eexists|].
  destruct c as [|b c]; [by eexists|].
  rewrite calculate_metrics_general by done. by eexists.
Qed.

End calculator_facts.





Lemma set_len_lower_set_NoDup (l : list string) :
  NoDup (PyStr.lower <$> l) → PyNum.set_len (lower_set l) = PyNum.len l.
Proof.
  intros Hnd. unfold PyNum.set_len, PyNum.len, lower_set.
  rewrite size_list_to_set by done. by rewrite length_fmap.
Qed.

Lemma size_list_to_set_le (l : list string) :
  (size (list_to_set (C:=gset string) l) ≤ length l)%nat.
Proof.
  induction l as [|x l IH]; [by rewrite list_to_set_nil, size_empty|].
  rewrite list_to_set_cons, size_union_alt, size_singleton. simpl.
  assert (size (list_to_set (C:=gset string) l ∖ {[x]})
          ≤ size (list_to_set (C:=gset string) l))%nat
    by (apply subseteq_size; set_solver).
  lia.
Qed.

(** A list with as many entries as its set has elements repeats none. *)
Lemma size_list_to_set_NoDup (l : list string) :
  size (list_to_set (C:=gset string) l) = length l → NoDup l.
Proof.
  induction l as [|x l IH]; [constructor|].
  rewrite list_to_set_cons. simpl. intros Hsize.
  destruct (decide (x ∈ l)) as [Hin|Hnin].
  - exfalso.
    assert ({[x]} ∪ list_to_set (C:=gset string) l = list_to_set l) as Heq
      by set_solver.
    rewrite Heq in Hsize. pose proof (size_list_to_set_le l). lia.
  - constructor; [done|]. apply IH.
    rewrite size_union, size_singleton in Hsize by set_solver. lia.
Qed.

Lemma set_len_lower_set_iff (l : list string) :
  PyNum.set_len (lower_set l) = PyNum.len l ↔ NoDup (PyStr.lower <$> l).
Proof.
  split; [|apply set_len_lower_set_NoDup].
  unfold PyNum.set_len, PyNum.len, lower_set. intros Hsize.
  apply size_list_to_set_NoDup. rewrite length_fmap. lia.
Qed.

(** C2, as the code has it: the counts add up to the sizes of the
    case-folded sets whenever both lists are non-empty, duplicates and
    case variants included; when a list is empty the early returns report
    the length of the other list, and the counts add up to the sizes of
    the sets exactly when no two entries of the lists agree after
    case-folding. *)
Theorem calculate_metrics_counts (r c : list string) :
  ∃ m, calculate_metrics r c = Some m ∧
       (r ≠ [] → c ≠ [] →
        tp m + fn m = PyNum.set_len (lower_set r) ∧
        tp m + fp m = PyNum.set_len (lower_set c)) ∧
       (r = [] ∨ c = [] →
        (tp m + fn m = PyNum.set_len (lower_set r) ∧
         tp m + fp m = PyNum.set_len (lower_set c))
        ↔ (NoDup (PyStr.lower <$> r) ∧ NoDup (PyStr.lower <$> c))).
Proof.
  destruct r as [|a r]; [|destruct c as [|b c]].
  - destruct c as [|b c].
    + eexists. split; [done|]. split; [done|]. intros _. simpl.
      split; [intros _; split; constructor|done].
    + eexists. split; [done|]. split; [done|]. intros _.
      cbn [tp fn fp]. rewrite <- (set_len_lower_set_iff (b :: c)).
      split.
      * intros [_ H]. split; [constructor|]. by rewrite <- H.
      * intros [_ H]. split; [done|]. by rewrite H.
  - eexists. split; [done|]. split; [done|]. intros _.
    cbn [tp fn fp]. rewrite <- (set_len_lower_set_iff (a :: r)).
    split.
    + intros [H _]. split; [|constructor]. by rewrite <- H.
    + intros [H _]. split; [|done]. by rewrite H.
  - eexists. split; [by apply calculate_metrics_general|].
    split; [|by intros [|]]. intros _ _. simpl. split.
    + apply set_len_split.
    + rewrite set_len_intersection_comm. apply set_len_split.
Qed.

(** Both lists non-empty, with a duplicate and a case variant on each side. *)
Lemma calculate_metrics_counts_witness :
  ∃ m, calculate_metrics ["Comfort"; "comfort"; "Style"] ["STYLE"; "Style"; "Fit"] = Some m ∧
       tp m + fn m = 2 ∧ tp m + fp m = 2.
Proof.
  destruct (calculate_metrics_counts
              ["Comfort"; "comfort"; "Style"] ["STYLE"; "Style"; "Fit"])
    as (m & Hm & Hgen & _).
  destruct Hgen as [H1 H2]; [done|done|].
  exists m. split; [exact Hm|]. split; [exact H1 | exact H2].
Defined.

(** Against C2 for all pairs: with no reference label and the candidate
    labels "X" and "x", fp is 2, the length of the list, while the
    case-folded candidate set has one element. *)
Lemma calculate_metrics_counts_degenerate :
  ∃ m, calculate_metrics [] ["X"; "x"] = Some m ∧
       tp m + fp m = 2 ∧ PyNum.set_len (lower_set ["X"; "x"]) = 1 ∧
       tp m + fp m ≠ PyNum.set_len (lower_set ["X"; "x"]).
Proof. eexists. split; [reflexivity|]. split_and!; by vm_compute. Qed.

(** C7, as the code has it: the calculator returns for every pair of lists.
    The table removes the pairs where the size of a set could be zero; the
    sum recall + precision can still be zero below the table, and there the
    test in front of the f1 formula gives 0 without dividing. *)
Theorem calculate_metrics_never_raises :
  (∀ r c, is_Some (calculate_metrics r c)) ∧
  (∀ r c, r ≠ [] → c ≠ [] →
     0 < PyNum.set_len (lower_set r) ∧ 0 < PyNum.set_len (lower_set c)) ∧
  (∀ recall precision, is_Some (f1_of recall precision)) ∧
  (∀ recall precision, (recall + precision == 0)%Q → f1_of recall precision = Some 0%Q).
Proof.
  split_and!.
  - apply calculate_metrics_total.
  - intros r c Hr Hc. split; by apply lower_set_nonempty.
  - intros r p. rewrite f1_of_eq. by eexists.
  - intros r p Hz. rewrite f1_of_eq.
    assert (PyNum.Qltb 0 (r + p) = false) as ->; [|done].
    apply PyNumFacts.Qltb_ge. rewrite Hz. apply Qle_refl.
Qed.

Lemma calculate_metrics_never_raises_witness :
  0 < PyNum.set_len (lower_set ["a"]) ∧ 0 < PyNum.set_len (lower_set ["b"]) ∧
  f1_of 0 0 = Some 0%Q.
Proof.
  destruct calculate_metrics_never_raises as (_ & Hsets & _ & Hzero).
  destruct (Hsets ["a"] ["b"]) as [Ha Hb]; [done|done|].
  split; [exact Ha|]. split; [exact Hb|].
  apply (Hzero 0%Q 0%Q). reflexivity.
Defined.

(** Against C7's account of the zero sum: the lists ["a"] and ["b"] are
    both non-empty, so no row of the table applies, and recall + precision
    is zero. *)
Lemma calculate_metrics_zero_sum_below_table :
  is_empty ["a"] = false ∧ is_empty ["b"] = false ∧
  ∃ m, calculate_metrics ["a"] ["b"] = Some m ∧ (recall m + precision m == 0)%Q.
Proof. split; [done|]. split; [done|]. eexists. split; [by vm_compute|]. by vm_compute. Qed.

(** C9: the three metrics lie between 0 and 1 and the three counts are not
    negative, for every pair of lists. *)
Theorem calculate_metrics_ranges (r c : list string) :
  ∃ m, calculate_metrics r c = Some m ∧
       (0 <= recall m <= 1)%Q ∧ (0 <= precision m <= 1)%Q ∧ (0 <= f1 m <= 1)%Q ∧
       0 ≤ tp m ∧ 0 ≤ fn m ∧ 0 ≤ fp m.
Proof.
  destruct r as [|a r]; [|destruct c as [|b c]].
  - destruct c as [|b c]; eexists; (split; [done|]); simpl;
      split_and!; try done; unfold PyNum.len; lia.
  - eexists. split; [done|]. simpl. split_and!; try done; unfold PyNum.len; lia.
  - eexists. split; [by apply calculate_metrics_general|]. simpl.
    set (R := lower_set (a :: r)). set (C := lower_set (b :: c)).
    assert (0 <= inject_Z (PyNum.set_len (R ∩ C)) / inject_Z (PyNum.set_len R) <= 1)%Q as Hrec.
    { apply PyNumFacts.ratio_bounds; [apply set_len_nonneg| |by apply lower_set_nonempty].
      pose proof (set_len_split R C). pose proof (set_len_nonneg (R ∖ C)). lia. }
    assert (0 <= inject_Z (PyNum.set_len (R ∩ C)) / inject_Z (PyNum.set_len C) <= 1)%Q as Hprec.
    { apply PyNumFacts.ratio_bounds; [apply set_len_nonneg| |by apply lower_set_nonempty].
      pose proof (set_len_split C R). pose proof (set_len_nonneg (C ∖ R)).
      rewrite set_len_intersection_comm. lia. }
    split_and!; try apply Hrec; try apply Hprec; try apply set_len_nonneg.
    + destruct (PyNum.Qltb _ _) eqn:E; [|done].
      apply PyNumFacts.harmonic_bounds; [done..|]. by apply PyNumFacts.Qltb_lt.
    + destruct (PyNum.Qltb _ _) eqn:E; [|done].
      apply PyNumFacts.harmonic_bounds; [done..|]. by apply PyNumFacts.Qltb_lt.
Qed.

(** ** The source loaders *)

Section loader_facts.
Implicit Types (reviews : gmap string (list string)) (line rid : string).

Lemma load_gemini_step_fields reviews line :
  load_gemini_step reviews line =
    match gemini_line_fields line with
    | Some (review_id, aspect) =>
        if PyStr.truthy (normalize_aspect_name aspect)
        then dd_append review_id (normalize_aspect_name aspect) reviews
        else reviews
    | None => reviews
    end.
Proof.
  unfold load_gemini_step, gemini_line_fields.
  by destruct (PyStr.split _ _) as [|part0 [|part1 rest]].
Qed.

Lemma load_gemini_step_entry reviews line :
  load_gemini_step reviews line =
    match gemini_line_entry line with
    | Some (k, a) => dd_append k a reviews
    | None => reviews
    end.
Proof.
  rewrite load_gemini_step_fields. unfold gemini_line_entry.
  destruct (gemini_line_fields line) as [[k a]|]; simpl; [|done].
  by destruct (PyStr.truthy _).
Qed.

Lemma gemini_labels_of_cons rid line lines :
  gemini_labels_of rid (line :: lines) =
    match gemini_line_entry line with
    | Some (k, a) => if decide (k = rid) then a :: gemini_labels_of rid lines
                     else gemini_labels_of rid lines
    | None => gemini_labels_of rid lines
    end.
Proof.
  unfold gemini_labels_of. simpl.
  destruct (gemini_line_entry line) as [[k a]|]; simpl; [|done].
  by destruct (decide (k = rid)).
Qed.

(** The loop appends to what the mapping already holds under a key. *)
Lemma gemini_loop_lookup reviews lines rid :
  foldl load_gemini_step reviews lines !! rid =
    match gemini_labels_of rid lines with
    | [] => reviews !! rid
    | labels => Some (default [] (reviews !! rid) ++ labels)
    end.
Proof.
  revert reviews. induction lines as [|line lines IH]; intros reviews; [done|].
  simpl foldl. rewrite IH, gemini_labels_of_cons, load_gemini_step_entry.
  destruct (gemini_line_entry line) as [[k a]|]; [|done].
  unfold dd_append. destruct (decide (k = rid)) as [->|Hne].
  - rewrite lookup_insert_eq. simpl.
    destruct (gemini_labels_of rid lines); [done|].
    by rewrite <- app_assoc.
  - by rewrite lookup_insert_ne.
Qed.

Lemma load_gemini_aspects_lookup lines rid :
  load_gemini_aspects lines !! rid =
    match gemini_labels_of rid (drop 1 lines) with
    | [] => None
    | labels => Some labels
    end.
Proof.
  unfold load_gemini_aspects. rewrite gemini_loop_lookup, lookup_empty. done.
Qed.

Lemma load_gemini_aspects_snoc header lines line :
  load_gemini_aspects (header :: lines ++ [line]) =
    load_gemini_step (load_gemini_aspects (header :: lines)) line.
Proof.
  unfold load_gemini_aspects.
  change (drop 1 (header :: lines ++ [line])) with (lines ++ [line]).
  change (drop 1 (header :: lines)) with lines. apply foldl_snoc.
Qed.

(** The loop overwrites: the last row of a key decides its value. *)
Lemma rita_loop_lookup reviews (rows : list rita_row) rid :
  foldl load_rita_step reviews rows !! rid =
    match last (filter (λ row, row_Review_ID row = rid) rows) with
    | Some row => Some (rita_row_aspects row)
    | None => reviews !! rid
    end.
Proof.
  revert reviews. induction rows as [|row rows IH]; intros reviews; [done|].
  simpl foldl. rewrite IH. unfold load_rita_step.
  rewrite filter_cons. case_decide as Hid.
  - rewrite last_cons. destruct (last _); [done|].
    subst rid. by rewrite lookup_insert_eq.
  - destruct (last _); [done|]. by rewrite lookup_insert_ne.
Qed.

Lemma load_rita_aspects_lookup (rows : list rita_row) rid :
  load_rita_aspects rows !! rid =
    rita_row_aspects <$> last (filter (λ row, row_Review_ID row = rid) rows).
Proof.
  unfold load_rita_aspects. rewrite rita_loop_lookup, lookup_empty.
  by destruct (last _).
Qed.

Lemma load_rita_aspects_snoc (rows : list rita_row) row :
  load_rita_aspects (rows ++ [row]) = load_rita_step (load_rita_aspects rows) row.
Proof. unfold load_rita_aspects. by rewrite foldl_snoc. Qed.

Lemma normalize_whitespace s :
  PyStr.all_chars PyStr.is_whitespace s = true → normalize_aspect_name s = "".
Proof.
  intros Hs. unfold normalize_aspect_name.
  rewrite (PyStrFacts.strip_all_whitespace s Hs). by vm_compute.
Qed.

End loader_facts.

(** C5, as the code has it: a data line loses the white space at both of
    its ends, then every quote character at both ends of what is left, not
    one layer only; the rest is split at each comma; column 0, trimmed, is
    the review identifier and column 1, trimmed and normalized, the label;
    further columns play no part, and a line with fewer than two columns
    leaves the mapping as it was. *)
Theorem load_gemini_step_line (reviews : gmap string (list string)) (line : string) :
  let core := PyStr.strip_quotes (PyStr.strip line) in
  let parts := PyStr.split "," core in
  (∃ ws1 q1 q2 ws2,
     line = ws1 +:+ (q1 +:+ core +:+ q2) +:+ ws2 ∧
     PyStr.all_chars PyStr.is_whitespace ws1 = true ∧
     PyStr.all_chars PyStr.is_whitespace ws2 = true ∧
     PyStr.all_chars PyStr.is_quote q1 = true ∧
     PyStr.all_chars PyStr.is_quote q2 = true ∧
     PyStr.clean_ends PyStr.is_quote core) ∧
  PyStr.join "," parts = core ∧
  Forall (λ part, PyStr.all_chars (λ c, negb (Ascii.eqb c ",")) part = true) parts ∧
  (∀ part0 part1 rest, parts = part0 :: part1 :: rest →
     load_gemini_step reviews line =
       if PyStr.truthy (normalize_aspect_name (PyStr.strip part1))
       then dd_append (PyStr.strip part0)
              (normalize_aspect_name (PyStr.strip part1)) reviews
       else reviews) ∧
  ((length parts < 2)%nat → load_gemini_step reviews line = reviews).
Proof.
  intros core parts. split_and!.
  - destruct (PyStrFacts.strip_by_spec PyStr.is_whitespace line)
      as (ws1 & ws2 & Hline & Hws1 & Hws2 & _).
    destruct (PyStrFacts.strip_by_spec PyStr.is_quote (PyStr.strip line))
      as (q1 & q2 & Hcore & Hq1 & Hq2 & Hclean).
    exists ws1, q1, q2, ws2. split_and!; try done.
    unfold core, PyStr.strip_quotes. by rewrite <- Hcore.
  - apply PyStrFacts.join_split.
  - apply PyStrFacts.split_no_sep.
  - intros part0 part1 rest Hparts. unfold load_gemini_step.
    fold core. fold parts. by rewrite Hparts.
  - intros Hlen. unfold load_gemini_step. fold core. fold parts.
    destruct parts as [|part0 [|part1 rest]]; [done..|]. simpl in Hlen. lia.
Qed.

(** The line of the loader's own comment: the identifier, the label, a
    sentiment and a quoted evidence text, wrapped in quotes. *)
Lemma load_gemini_step_line_witness :
  load_gemini_step ∅
    (PyStr.quote +:+ "RRE_001,Fit/Sizing,negative," +:+ PyStr.quote +:+ PyStr.quote +:+
     "evidence" +:+ PyStr.quote +:+ PyStr.quote +:+ PyStr.quote +:+ PyStr.newline)
  = dd_append "RRE_001" "Sizing/Fit" ∅ ∧
  load_gemini_step ∅ ("no comma here" +:+ PyStr.newline) = ∅.
Proof.
  split.
  - match goal with |- load_gemini_step ∅ ?l = _ =>
      destruct (load_gemini_step_line ∅ l) as (_ & _ & _ & Hcols & _) end.
    rewrite (Hcols "RRE_001" "Fit/Sizing"
               ["negative"; PyStr.quote +:+ PyStr.quote +:+ "evidence"]);
      vm_compute; reflexivity.
  - match goal with |- load_gemini_step ∅ ?l = _ =>
      destruct (load_gemini_step_line ∅ l) as (_ & _ & _ & _ & Hshort) end.
    apply Hshort. vm_compute. lia.
Defined.

(** Against C5 as worded: a line wrapped in two layers of quotes loses
    both, and white space in front of the opening quote goes as well; the
    steps of section 4.3 would leave a quote in each column read. *)
Lemma load_gemini_step_strips_more :
  let two_layers :=
    PyStr.quote +:+ PyStr.quote +:+ "R1,Comfort" +:+ PyStr.quote +:+ PyStr.quote in
  let indented := "  " +:+ PyStr.quote +:+ "R1,Comfort" +:+ PyStr.quote in
  (gemini_line_fields two_layers = Some ("R1", "Comfort") ∧
   described_line_fields two_layers =
     Some (PyStr.quote +:+ "R1", "Comfort" +:+ PyStr.quote) ∧
   load_gemini_step ∅ two_layers = dd_append "R1" "Comfort" ∅) ∧
  (gemini_line_fields indented = Some ("R1", "Comfort") ∧
   described_line_fields indented = Some (PyStr.quote +:+ "R1", "Comfort") ∧
   load_gemini_step ∅ indented = dd_append "R1" "Comfort" ∅).
Proof. by vm_compute. Qed.

(** C6: the two loaders treat a repeated review identifier differently.
    In the reference loader the value under a key is the label list of the
    last row with that key, so a later row replaces an earlier one; in the
    candidate loader it is the labels of all the lines with that key, in
    file order, each line appending its own. *)
Theorem duplicate_keys_asymmetric :
  (∀ (rows : list rita_row) rid,
     load_rita_aspects rows !! rid =
       rita_row_aspects <$> last (filter (λ row, row_Review_ID row = rid) rows)) ∧
  (∀ (rows : list rita_row) row,
     load_rita_aspects (rows ++ [row]) !! row_Review_ID row =
       Some (rita_row_aspects row)) ∧
  (∀ lines rid,
     load_gemini_aspects lines !! rid =
       match gemini_labels_of rid (drop 1 lines) with
       | [] => None
       | labels => Some labels
       end) ∧
  (∀ header lines line k a,
     gemini_line_entry line = Some (k, a) →
     load_gemini_aspects (header :: lines ++ [line]) !! k =
       Some (default [] (load_gemini_aspects (header :: lines) !! k) ++ [a])).
Proof.
  split_and!.
  - apply load_rita_aspects_lookup.
  - intros rows row. rewrite load_rita_aspects_snoc. apply lookup_insert_eq.
  - apply load_gemini_aspects_lookup.
  - intros header lines line k a Hentry.
    rewrite load_gemini_aspects_snoc, load_gemini_step_entry, Hentry.
    apply lookup_insert_eq.
Qed.

(** Review R1 twice in each file: the reference keeps the second row, the
    candidate keeps both lines. *)
Lemma duplicate_keys_asymmetric_witness :
  load_rita_aspects [RitaRow "R1" "Style, Comfort"; RitaRow "R1" "fit/sizing"] !! "R1"
    = Some ["Sizing/Fit"] ∧
  load_gemini_aspects ["Review_ID,Aspect"; "R1,Style"; "R1,fit/sizing"] !! "R1"
    = Some ["Color/Aesthetics"; "Sizing/Fit"].
Proof.
  destruct duplicate_keys_asymmetric as (_ & Hrita & _ & Hgemini).
  split.
  - apply (Hrita [RitaRow "R1" "Style, Comfort"] (RitaRow "R1" "fit/sizing")).
  - apply (Hgemini "Review_ID,Aspect" ["R1,Style"] "R1,fit/sizing" "R1" "Sizing/Fit").
    vm_compute. reflexivity.
Defined.

(** C10: a candidate line whose label normalizes to the empty string, as a
    label of white space only does, changes nothing: no label is appended,
    and a review identifier that no other line brings in is absent from
    the mapping.  A reference row whose pieces all normalize to the empty
    string still records its review identifier, with the empty list. *)
Theorem empty_label_rows :
  (∀ s, PyStr.all_chars PyStr.is_whitespace s = true → normalize_aspect_name s = "") ∧
  (∀ reviews line review_id aspect,
     gemini_line_fields line = Some (review_id, aspect) →
     normalize_aspect_name aspect = "" →
     load_gemini_step reviews line = reviews) ∧
  (∀ lines rid,
     (∀ line a, line ∈ drop 1 lines → gemini_line_entry line ≠ Some (rid, a)) →
     load_gemini_aspects lines !! rid = None) ∧
  (∀ (rows : list rita_row) row,
     Forall (λ piece, normalize_aspect_name piece = "")
            (PyStr.split "," (row_Rita_Aspect row)) →
     load_rita_aspects (rows ++ [row]) !! row_Review_ID row = Some []).
Proof.
  split_and!.
  - apply normalize_whitespace.
  - intros reviews line review_id aspect Hfields Hempty.
    by rewrite load_gemini_step_fields, Hfields, Hempty.
  - intros lines rid Hnone. rewrite load_gemini_aspects_lookup.
    assert (gemini_labels_of rid (drop 1 lines) = []) as ->; [|done].
    induction (drop 1 lines) as [|line rest IH]; [done|].
    rewrite gemini_labels_of_cons.
    destruct (gemini_line_entry line) as [[k a]|] eqn:Hentry.
    + destruct (decide (k = rid)) as [->|].
      * exfalso. apply (Hnone line a); [by left | done].
      * apply IH. intros ???. apply Hnone. by right.
    + apply IH. intros ???. apply Hnone. by right.
  - intros rows row Hpieces.
    rewrite load_rita_aspects_snoc. unfold load_rita_step.
    rewrite lookup_insert_eq. f_equal. unfold rita_row_aspects.
    induction Hpieces as [|piece pieces Hpiece _ IH]; [done|].
    rewrite fmap_cons. simpl. by rewrite Hpiece.
Qed.

(** Review R1 with a blank label in each file: absent from the candidate
    mapping, present with no label in the reference mapping. *)
Lemma empty_label_rows_witness :
  load_gemini_aspects ["Review_ID,Aspect"; "R1,   ,negative"] !! "R1" = None ∧
  load_rita_aspects [RitaRow "R1" "  , "] !! "R1" = Some [].
Proof.
  destruct empty_label_rows as (_ & _ & Hgemini & Hrita).
  split.
  - apply Hgemini. intros line a Hline.
    apply list_elem_of_singleton in Hline as ->. vm_compute. discriminate.
  - apply (Hrita [] (RitaRow "R1" "  , ")).
    repeat constructor.
Defined.

(** ** The audit driver *)

Section sorting_facts.
Context {A : Type} (key : A → Q).

Lemma insert_by_key_Permutation x l : insert_by_key key x l ≡ₚ x :: l.
Proof.
  induction l as [|y l IH]; simpl; [done|].
  destruct (Qle_bool (key x) (key y)); [done|].
  rewrite IH. apply Permutation_swap.
Qed.

Lemma sorted_by_key_Permutation l : sorted_by_key key l ≡ₚ l.
Proof.
  induction l as [|x l IH]; simpl; [done|].
  by rewrite insert_by_key_Permutation, IH.
Qed.


End sorting_facts.

Section driver_facts.
Import PyNum PyNumFacts.

(** The loop prints the first ten rows below one half, in their order. *)
Lemma worst_loop_take (l : list result_row) (count : nat) :
  worst_loop l count =
    take (10 - count) (List.filter below_half l).
Proof.
  revert count. induction l as [|r l IH]; intros count; simpl.
  - by rewrite take_nil.
  - destruct (below_half r) eqn:Hr; simpl; [|apply IH].
    destruct (Nat.ltb_spec count 10) as [Hlt|Hge].
    + rewrite IH. replace (10 - count)%nat with (S (10 - S count)) by lia. done.
    + rewrite IH. by replace (10 - count)%nat with 0%nat by lia.
Qed.

Lemma worst_cases_eq (rows : list result_row) :
  worst_cases rows =
    take 10 (List.filter below_half (sorted_by_key f1_key rows)).
Proof. unfold worst_cases. by rewrite worst_loop_take. Qed.

Lemma filter_StronglySorted {A} (R : relation A) (f : A → bool) l :
  StronglySorted R l → StronglySorted R (List.filter f l).
Proof.
  induction 1 as [|x l Hl IH Hx]; simpl; [constructor|].
  destruct (f x); [|done]. constructor; [done|].
  apply Forall_forall. intros y [Hy _]%list_elem_of_In%filter_In.
  rewrite Forall_forall in Hx. by apply Hx, list_elem_of_In.
Qed.

Lemma take_StronglySorted {A} (R : relation A) n l :
  StronglySorted R l → StronglySorted R (take n l).
Proof.
  intros Hl. rewrite <- (take_drop n l) in Hl.
  by apply StronglySorted_app in Hl as (_ & ? & _).
Qed.



(** The converse fails at the edge: an F1 of 1000/2001 is below one half
    and prints as 0.500. *)
Lemma format_3f_half_edge :
  (1000 # 2001 < 1 # 2)%Q ∧ (float_of (format_3f (1000 # 2001)) == 1 # 2)%Q.
Proof. split; by vm_compute. Qed.

End driver_facts.

Section audit_facts.
Import PyNum PyNumFacts.
Variables rita_data gemini_data : gmap string (list string).

Local Abbreviation row_of := (row_of rita_data gemini_data).

Lemma row_of_Review_ID review_id row : row_of review_id row → Review_ID row = review_id.
Proof. by intros (m & _ & ->). Qed.

Lemma audit_step_Some st review_id :
  ∃ st' row, audit_step rita_data gemini_data st review_id = Some st' ∧
             row_of review_id row ∧ results st' = results st ++ [row].
Proof.
  unfold audit_step, row_of.
  destruct (calculate_metrics_total (default [] (rita_data !! review_id))
              (default [] (gemini_data !! review_id))) as [m Hm].
  rewrite Hm. simpl. eauto 10.
Qed.

(** The loop ends, with one more row per identifier, in their order. *)
Lemma audit_loop_Some ids st :
  ∃ st' rows, audit_loop rita_data gemini_data st ids = Some st' ∧
              Forall2 row_of ids rows ∧ results st' = results st ++ rows.
Proof.
  revert st. induction ids as [|review_id ids IH]; intros st; simpl.
  - exists st, []. by rewrite app_nil_r.
  - destruct (audit_step_Some st review_id) as (st1 & row & -> & Hrow & Hres1).
    simpl. destruct (IH st1) as (st' & rows & -> & Hrows & Hres).
    exists st', (row :: rows). split_and!; [done|by constructor|].
    by rewrite Hres, Hres1, <- app_assoc.
Qed.

Lemma macro_average_Some total n : is_Some (macro_average total n).
Proof.
  unfold macro_average. destruct (Z.ltb_spec 0 n); [|by eexists].
  rewrite div_pos_Some by done. by eexists.
Qed.

Lemma micro_ratio_Some a b : is_Some (micro_ratio a b).
Proof.
  unfold micro_ratio. destruct (Z.ltb_spec 0 (a + b)); [|by eexists].
  rewrite div_pos_Some by done. by eexists.
Qed.

Lemma micro_f1_of_Some r p : is_Some (micro_f1_of r p).
Proof. change (micro_f1_of r p) with (f1_of r p). rewrite f1_of_eq. by eexists. Qed.

Lemma b64_positive_not_zero (x : SpecFloat.spec_float) :
  B64.ltb B64.zero x = true → B64.is_zero x = false.
Proof. by destruct x as [[]|[]| |[] m e]. Qed.

Lemma b64_micro_ratio_Some a b : is_Some (B64.micro_ratio a b).
Proof.
  unfold B64.micro_ratio, B64.truediv.
  destruct (Z.ltb_spec 0 (a + b)); [|by eexists].
  destruct (Z.eqb_spec (a + b) 0); [lia|]. by eexists.
Qed.

Lemma b64_micro_f1_of_Some r p : is_Some (B64.micro_f1_of r p).
Proof.
  unfold B64.micro_f1_of, B64.div.
  destruct (B64.ltb B64.zero (B64.add r p)) eqn:E; [|by eexists].
  rewrite (b64_positive_not_zero _ E). by eexists.
Qed.

Lemma b64_micro_f1_Some t n p : is_Some (B64.micro_f1 t n p).
Proof.
  unfold B64.micro_f1.
  destruct (b64_micro_ratio_Some t n) as [mr ->].
  destruct (b64_micro_ratio_Some t p) as [mp ->]. simpl.
  apply b64_micro_f1_of_Some.
Qed.

Local Arguments micro_f1_of : simpl never.
Local Arguments B64.micro_f1 : simpl never.
Local Arguments micro_ratio : simpl never.
Local Arguments macro_average : simpl never.

(** A run ends: it writes the rows of the loop and decides on micro-F1. *)
Lemma audit_Some :
  ∃ out rows,
    audit rita_data gemini_data = Some out ∧
    Forall2 row_of (all_reviews rita_data gemini_data) rows ∧
    artifact out = write_results rows ∧
    B64.micro_f1 (sum_tp (returned out)) (sum_fn (returned out))
                 (sum_fp (returned out)) = Some (decision_metric out) ∧
    verdict out = decide_on (decision_metric out) rows.
Proof.
  unfold audit.
  destruct (audit_loop_Some (all_reviews rita_data gemini_data) audit_init)
    as (st & rows & -> & Hrows & Hres).
  simpl in Hres. subst rows. simpl.
  destruct (macro_average_Some (total_recall st) (len (results st))) as [? ->].
  destruct (macro_average_Some (total_precision st) (len (results st))) as [? ->].
  destruct (macro_average_Some (total_f1 st) (len (results st))) as [? ->].
  destruct (micro_ratio_Some (total_tp st) (total_fn st)) as [mr ->].
  destruct (micro_ratio_Some (total_tp st) (total_fp st)) as [mp ->]. simpl.
  destruct (micro_f1_of_Some mr mp) as [? ->]. simpl.
  destruct (b64_micro_f1_Some (total_tp st) (total_fn st) (total_fp st))
    as [mf Hmf]. rewrite Hmf. simpl.
  eexists _, (results st). split_and!; done.
Qed.

(** The identifiers of a run: those of either mapping, each once, in order. *)
Lemma all_reviews_spec :
  Sorted String.le (all_reviews rita_data gemini_data) ∧
  NoDup (all_reviews rita_data gemini_data) ∧
  ∀ x, x ∈ all_reviews rita_data gemini_data ↔
       is_Some (rita_data !! x) ∨ is_Some (gemini_data !! x).
Proof.
  unfold all_reviews, sorted_strings. split_and!.
  - apply Sorted_merge_sort, _.
  - rewrite merge_sort_Permutation. apply NoDup_elements.
  - intros x. rewrite merge_sort_Permutation, elem_of_elements, elem_of_union.
    by rewrite !elem_of_dom.
Qed.

End audit_facts.

(** C8, as the code has it: a run writes the header, with the twelve field
    names in the order the rows are built, and then one row per review
    identifier of the sorted union of the two mappings, whenever that union
    is not empty; when both mappings are empty the file is left empty, with
    no header row. *)
Theorem audit_artifact (rita_data gemini_data : gmap string (list string)) :
  let ids := all_reviews rita_data gemini_data in
  ∃ out rows,
    audit rita_data gemini_data = Some out ∧
    Sorted String.le ids ∧ NoDup ids ∧
    (∀ x, x ∈ ids ↔ is_Some (rita_data !! x) ∨ is_Some (gemini_data !! x)) ∧
    Forall2 (row_of rita_data gemini_data) ids rows ∧
    Review_ID <$> rows = ids ∧
    artifact out =
      if is_empty ids then []
      else HeaderRecord
             [ "Review_ID"; "Rita_Aspects"; "Rita_Count"; "Gemini_Aspects";
               "Gemini_Count"; "True_Positives"; "False_Negatives";
               "False_Positives"; "Recall"; "Precision"; "F1_Score"; "Details" ]
           :: (DataRecord <$> rows).
Proof.
  intros ids.
  destruct (audit_Some rita_data gemini_data) as (out & rows & Hout & Hrows & Hart & _).
  destruct (all_reviews_spec rita_data gemini_data) as (Hsorted & Hnodup & Hin).
  exists out, rows. fold ids in Hrows, Hsorted, Hnodup, Hin.
  split_and!; try done.
  - clear -Hrows. induction Hrows as [|x row ids rows Hrow _ IH]; [done|].
    rewrite fmap_cons, IH. f_equal. by eapply row_of_Review_ID.
  - rewrite Hart. unfold write_results. by destruct Hrows.
Qed.

(** Against C8 for every run: with no reference row and a candidate file
    of its header line only, both mappings are empty and nothing is
    written, the header row included. *)
Lemma audit_artifact_empty_run :
  load_rita_aspects [] = ∅ ∧
  load_gemini_aspects ["Review_ID,Aspect,Sentiment,Evidence"] = ∅ ∧
  ∃ out, run_audit [] ["Review_ID,Aspect,Sentiment,Evidence"] = Some out ∧
         artifact out = [].
Proof. split; [done|]. split; [done|]. eexists. split; by vm_compute. Qed.

(** * Further properties of the code *)

(** ** The metric calculator *)

Section calculator_more.
Import PyNum PyNumFacts.

Lemma inject_Z_pos (n : Z) : 0 < n → (0 < inject_Z n)%Q.
Proof. intros Hn. unfold Qlt, inject_Z. simpl. lia. Qed.

Lemma set_len_list_le (l : list string) : set_len (lower_set l) ≤ len l.
Proof.
  unfold set_len, len, lower_set. apply inj_le.
  induction l as [|a l IH]; [by rewrite fmap_nil, list_to_set_nil, size_empty|].
  rewrite fmap_cons, list_to_set_cons, size_union_alt, size_singleton. simpl.
  pose proof (subseteq_size (list_to_set (C:=gset string) (PyStr.lower <$> l) ∖ {[PyStr.lower a]})
                (list_to_set (PyStr.lower <$> l))) as Hle.
  assert (size (list_to_set (C:=gset string) (PyStr.lower <$> l) ∖ {[PyStr.lower a]})
          ≤ size (list_to_set (C:=gset string) (PyStr.lower <$> l)))%nat
    by (apply Hle; set_solver).
  lia.
Qed.

(** The harmonic mean of [t/a] and [t/b] is [2t/(a+b)]. *)
Lemma harmonic_ratio (t a b : Q) :
  (0 < t)%Q → (0 < a)%Q → (0 < b)%Q →
  (2 * (t / a * (t / b)) / (t / a + t / b) == 2 * t / (a + b))%Q.
Proof.
  intros Ht Ha Hb. field.
  assert (0 < t * a)%Q by nra. assert (0 < t * b)%Q by nra.
  repeat split; lra.
Qed.

Lemma ratio_pos (t a : Q) : (0 < t)%Q → (0 < a)%Q → (0 < t / a)%Q.
Proof. intros Ht Ha. apply Qlt_shift_div_l; [done|]. lra. Qed.

Lemma ratio_zero (a : Q) : (0 / a == 0)%Q.
Proof. unfold Qdiv. lra. Qed.

(** Below the early returns f1 is the ratio 2 tp / (2 tp + fn + fp). *)
Lemma f1_closed_form (r c : list string) :
  r ≠ [] → c ≠ [] →
  ∃ m, calculate_metrics r c = Some m ∧
       tp m = set_len (lower_set r ∩ lower_set c) ∧
       fn m = set_len (lower_set r ∖ lower_set c) ∧
       fp m = set_len (lower_set c ∖ lower_set r) ∧
       0 < 2 * tp m + fn m + fp m ∧
       (f1 m == inject_Z (2 * tp m) / inject_Z (2 * tp m + fn m + fp m))%Q.
Proof.
  intros Hr Hc. eexists. split; [by apply calculate_metrics_general|]. simpl.
  set (R := lower_set r). set (C := lower_set c).
  pose proof (set_len_split R C) as HR. pose proof (set_len_split C R) as HC.
  rewrite (set_len_intersection_comm C R) in HC.
  pose proof (lower_set_nonempty r Hr) as HRpos.
  pose proof (lower_set_nonempty c Hc) as HCpos. fold R in HRpos. fold C in HCpos.
  pose proof (set_len_nonneg (R ∩ C)) as Ht.
  pose proof (set_len_nonneg (R ∖ C)). pose proof (set_len_nonneg (C ∖ R)).
  split_and!; try done; [lia|].
  set (t := set_len (R ∩ C)) in *.
  replace (2 * t + set_len (R ∖ C) + set_len (C ∖ R)) with (set_len R + set_len C) by lia.
  rewrite inject_Z_plus, inject_Z_mult.
  pose proof (inject_Z_pos _ HRpos) as Ha. pose proof (inject_Z_pos _ HCpos) as Hb.
  destruct (Z.eq_dec t 0) as [Hz|Hnz].
  - rewrite Hz. change (inject_Z 0) with 0%Q.
    assert (Qltb 0 (0 / inject_Z (set_len R) + 0 / inject_Z (set_len C)) = false) as ->.
    { apply Qltb_ge. rewrite !ratio_zero. lra. }
    unfold Qdiv. lra.
  - assert (0 < inject_Z t)%Q as Htq by (apply inject_Z_pos; lia).
    assert (Qltb 0 (inject_Z t / inject_Z (set_len R) + inject_Z t / inject_Z (set_len C)) = true) as ->.
    { apply Qltb_lt. pose proof (ratio_pos _ _ Htq Ha). pose proof (ratio_pos _ _ Htq Hb). lra. }
    change (inject_Z 2) with 2%Q. by apply harmonic_ratio.
Qed.

End calculator_more.

Section calculator_extras.
Import PyNum PyNumFacts.

Lemma ratio_self (n : Z) : 0 < n → (inject_Z n / inject_Z n == 1)%Q.
Proof.
  intros Hn. apply Qmult_inv_r. pose proof (inject_Z_pos n Hn). lra.
Qed.

Lemma ratio_eq_1 (a b : Z) : 0 < b → (inject_Z a / inject_Z b == 1)%Q ↔ a = b.
Proof.
  intros Hb. pose proof (inject_Z_pos b Hb) as Hq. split.
  - intros H. apply inject_Z_injective.
    rewrite <- (Qmult_div_r (inject_Z a) (inject_Z b)) by lra.
    unfold Qdiv in H. unfold Qdiv. rewrite H. lra.
  - intros ->. by apply ratio_self.
Qed.

Lemma ratio_eq_0 (a b : Z) : 0 < b → (inject_Z a / inject_Z b == 0)%Q ↔ a = 0.
Proof.
  intros Hb. pose proof (inject_Z_pos b Hb) as Hq. split.
  - intros H. apply inject_Z_injective.
    rewrite <- (Qmult_div_r (inject_Z a) (inject_Z b)) by lra.
    unfold Qdiv in H. unfold Qdiv. rewrite H. change (inject_Z 0) with 0%Q. lra.
  - intros ->. apply ratio_zero.
Qed.

Lemma set_len_zero (s : gset string) : set_len s = 0 ↔ s = ∅.
Proof.
  unfold set_len. split.
  - intros H. apply leibniz_equiv, size_empty_iff. lia.
  - intros ->. by rewrite size_empty.
Qed.

Lemma harmonic_comm (r p : Q) :
  ((if Qltb 0 (p + r) then 2 * (p * r) / (p + r) else 0) ==
   (if Qltb 0 (r + p) then 2 * (r * p) / (r + p) else 0))%Q.
Proof.
  destruct (Qltb 0 (p + r)) eqn:E1, (Qltb 0 (r + p)) eqn:E2;
    try apply Qltb_lt in E1; try apply Qltb_lt in E2;
    try apply Qltb_ge in E1; try apply Qltb_ge in E2; try lra.
  by rewrite (Qplus_comm p r), (Qmult_comm p r).
Qed.

(** X1: comparing a list with itself gives full marks: recall, precision
    and f1 are 1, nothing is missed and nothing is extra, and tp is the
    number of distinct case-folded labels; the empty list included. *)
Theorem calculate_metrics_reflexive (x : list string) :
  ∃ m, calculate_metrics x x = Some m ∧
       (recall m == 1)%Q ∧ (precision m == 1)%Q ∧ (f1 m == 1)%Q ∧
       tp m = set_len (lower_set x) ∧ fn m = 0 ∧ fp m = 0.
Proof.
  destruct (decide (x = [])) as [->|Hx].
  { eexists. split; [done|]. by vm_compute. }
  eexists. split; [by apply calculate_metrics_general|]. simpl.
  rewrite (idemp_L (∩) (lower_set x)), difference_diag_L.
  pose proof (ratio_self _ (lower_set_nonempty x Hx)) as Hq.
  set (q := (inject_Z (set_len (lower_set x)) / inject_Z (set_len (lower_set x)))%Q) in *.
  split_and!; try done.
  assert (Qltb 0 (q + q) = true) as -> by (apply Qltb_lt; lra).
  by rewrite Hq.
Qed.

(** X2: exchanging the two lists exchanges recall with precision and fn
    with fp, and leaves tp and f1 as they are; this holds for every pair,
    the pairs answered by the early returns included. *)
Theorem calculate_metrics_swap (r c : list string) :
  ∃ m m', calculate_metrics r c = Some m ∧ calculate_metrics c r = Some m' ∧
          tp m' = tp m ∧ fn m' = fp m ∧ fp m' = fn m ∧
          (recall m' == precision m)%Q ∧ (precision m' == recall m)%Q ∧
          (f1 m' == f1 m)%Q.
Proof.
  destruct (decide (r = [])) as [->|Hr].
  { destruct c; do 2 eexists; (split; [reflexivity|]); (split; [reflexivity|]);
      simpl; split_and!; reflexivity. }
  destruct (decide (c = [])) as [->|Hc].
  { destruct r; [done|]. do 2 eexists; (split; [reflexivity|]); (split; [reflexivity|]);
      simpl; split_and!; reflexivity. }
  do 2 eexists.
  split; [by apply calculate_metrics_general|].
  split; [by apply calculate_metrics_general|]. simpl.
  rewrite (comm_L (∩) (lower_set c) (lower_set r)).
  split_and!; try done. apply harmonic_comm.
Qed.

Lemma lower_set_nil_inv (l : list string) : lower_set l = ∅ → l = [].
Proof.
  intros H. destruct l as [|a l]; [done|].
  pose proof (lower_set_nonempty (a :: l)) as Hpos.
  rewrite H in Hpos. unfold set_len in Hpos. rewrite size_empty in Hpos.
  specialize (Hpos ltac:(done)). lia.
Qed.

(** X3: below the early returns the result, detail text included, depends
    on the two lists only through their case-folded sets, so letter case,
    repeated labels and the order of the labels make no difference; and a
    reordering of either list never changes the result. *)
Theorem calculate_metrics_set_based :
  (∀ r r' c c', r ≠ [] → c ≠ [] →
     lower_set r = lower_set r' → lower_set c = lower_set c' →
     calculate_metrics r c = calculate_metrics r' c') ∧
  (∀ r r' c c', r ≡ₚ r' → c ≡ₚ c' →
     calculate_metrics r c = calculate_metrics r' c').
Proof.
  assert (∀ r r' c c', r ≠ [] → c ≠ [] →
     lower_set r = lower_set r' → lower_set c = lower_set c' →
     calculate_metrics r c = calculate_metrics r' c') as Hsets.
  { intros r r' c c' Hr Hc HR HC.
    assert (r' ≠ []) as Hr'.
    { intros ->. apply Hr, lower_set_nil_inv. by rewrite HR. }
    assert (c' ≠ []) as Hc'.
    { intros ->. apply Hc, lower_set_nil_inv. by rewrite HC. }
    rewrite !calculate_metrics_general by done. simpl. by rewrite HR, HC. }
  split; [exact Hsets|].
  intros r r' c c' Hrp Hcp.
  destruct (decide (r = [])) as [->|Hr].
  { apply Permutation.Permutation_nil in Hrp. subst r'.
    destruct c as [|b c]; [apply Permutation.Permutation_nil in Hcp; by subst c'|].
    destruct c' as [|b' c'].
    { symmetry in Hcp. by apply Permutation.Permutation_nil in Hcp. }
    unfold calculate_metrics, len. cbn [is_empty andb].
    by rewrite (Permutation_length Hcp). }
  destruct (decide (c = [])) as [->|Hc].
  { apply Permutation.Permutation_nil in Hcp. subst c'.
    destruct r as [|a r]; [done|].
    destruct r' as [|a' r'].
    { symmetry in Hrp. by apply Permutation.Permutation_nil in Hrp. }
    unfold calculate_metrics, len. cbn [is_empty andb].
    by rewrite (Permutation_length Hrp). }
  apply Hsets; [done..| |]; unfold lower_set.
  - by rewrite Hrp.
  - by rewrite Hcp.
Qed.

(** Case, a repeated label and the order changed on both sides. *)
Lemma calculate_metrics_set_based_witness :
  calculate_metrics ["Comfort"; "Style"] ["Style"; "Fit"] =
  calculate_metrics ["STYLE"; "comfort"; "Comfort"] ["fit"; "style"; "FIT"] ∧
  calculate_metrics ["Comfort"; "Style"] ["Fit"] =
  calculate_metrics ["Style"; "Comfort"] ["Fit"].
Proof.
  destruct calculate_metrics_set_based as [Hsets Hperm]. split.
  - apply Hsets; [done | done | by vm_compute | by vm_compute].
  - apply Hperm; [apply Permutation_swap | reflexivity].
Defined.

(** X4: for every pair of lists the counts stay within the lengths of the
    lists: tp + fn is at most the number of reference labels and tp + fp
    at most the number of candidate labels. *)
Theorem calculate_metrics_counts_le (r c : list string) :
  ∃ m, calculate_metrics r c = Some m ∧
       tp m + fn m ≤ len r ∧ tp m + fp m ≤ len c.
Proof.
  destruct (decide (r = [])) as [->|Hr].
  { destruct c; eexists; (split; [done|]); simpl; unfold len; simpl; lia. }
  destruct (decide (c = [])) as [->|Hc].
  { destruct r; [done|]. eexists; (split; [done|]); simpl; unfold len; simpl; lia. }
  eexists. split; [by apply calculate_metrics_general|]. simpl.
  pose proof (set_len_split (lower_set r) (lower_set c)).
  pose proof (set_len_split (lower_set c) (lower_set r)).
  rewrite (set_len_intersection_comm (lower_set c)) in *.
  pose proof (set_len_list_le r). pose proof (set_len_list_le c). lia.
Qed.

Lemma difference_both_empty (X Y : gset string) : X ∖ Y = ∅ ∧ Y ∖ X = ∅ ↔ X = Y.
Proof.
  split.
  - intros [HXY HYX]. apply set_eq. intros x. split; intros Hx.
    + destruct (decide (x ∈ Y)) as [|Hn]; [done|].
      assert (x ∈ X ∖ Y) as Hd by (by apply elem_of_difference).
      rewrite HXY in Hd. by apply elem_of_empty in Hd.
    + destruct (decide (x ∈ X)) as [|Hn]; [done|].
      assert (x ∈ Y ∖ X) as Hd by (by apply elem_of_difference).
      rewrite HYX in Hd. by apply elem_of_empty in Hd.
  - intros ->. by rewrite difference_diag_L.
Qed.

(** X5: when both lists are non-empty, f1 is 2 tp / (2 tp + fn + fp); so
    f1 is 1 exactly when the two case-folded sets are equal, and 0 exactly
    when they have no label in common. *)
Theorem f1_as_overlap (r c : list string) :
  r ≠ [] → c ≠ [] →
  ∃ m, calculate_metrics r c = Some m ∧
       (f1 m == inject_Z (2 * tp m) / inject_Z (2 * tp m + fn m + fp m))%Q ∧
       ((f1 m == 1)%Q ↔ lower_set r = lower_set c) ∧
       ((f1 m == 0)%Q ↔ lower_set r ∩ lower_set c = ∅).
Proof.
  intros Hr Hc.
  destruct (f1_closed_form r c Hr Hc) as (m & Hm & Htp & Hfn & Hfp & Hpos & Hf1).
  exists m. split; [done|]. split; [done|].
  pose proof (set_len_nonneg (lower_set r ∩ lower_set c)).
  pose proof (set_len_nonneg (lower_set r ∖ lower_set c)).
  pose proof (set_len_nonneg (lower_set c ∖ lower_set r)).
  split.
  - rewrite Hf1, ratio_eq_1 by done.
    rewrite <- difference_both_empty, <- !set_len_zero, <- Hfn, <- Hfp. lia.
  - rewrite Hf1, ratio_eq_0 by done. rewrite <- set_len_zero, <- Htp. lia.
Qed.

(** The pair of spec section 8: one of two labels shared on each side. *)
Lemma f1_as_overlap_witness :
  ∃ m, calculate_metrics ["Comfort"; "Durability"] ["Comfort"; "Value/Price"] = Some m ∧
       (f1 m == inject_Z (2 * tp m) / inject_Z (2 * tp m + fn m + fp m))%Q.
Proof.
  destruct (f1_as_overlap ["Comfort"; "Durability"] ["Comfort"; "Value/Price"])
    as (m & Hm & Hf1 & _); [done|done|].
  exists m. split; [exact Hm | exact Hf1].
Defined.

Lemma join_first_char (sep x : string) (l : list string) :
  x ≠ "" → PyStr.first_char (PyStr.join sep (x :: l)) = PyStr.first_char x.
Proof. intros Hx. destruct x as [|a x]; [done|]. by destruct l. Qed.

(** X6: the detail text is never "Perfect match": the early returns give
    their own three texts, and below them a label is matched or missed, so
    the text starts with "Matched: " or with "Missed: ". *)
Theorem details_never_perfect_match (r c : list string) :
  ∃ m, calculate_metrics r c = Some m ∧ details m ≠ "Perfect match" ∧
       (r ≠ [] → c ≠ [] → PyStr.first_char (details m) = Some "M"%char).
Proof.
  destruct (decide (r = [])) as [->|Hr].
  { destruct c; eexists; (split; [reflexivity|]); by split. }
  destruct (decide (c = [])) as [->|Hc].
  { destruct r; [done|]. eexists; (split; [reflexivity|]); by split. }
  eexists. split; [by apply calculate_metrics_general|]. simpl.
  set (R := lower_set r). set (C := lower_set c).
  assert (PyStr.first_char
            (details_of (R ∩ C) (R ∖ C) (C ∖ R) (set_len (R ∖ C)) (set_len (C ∖ R)))
          = Some "M"%char) as Hfirst.
  { unfold details_of. destruct (decide (R ∩ C = ∅)) as [Hempty|Hne].
    - assert (0 < set_len (R ∖ C)) as Hfn.
      { pose proof (set_len_split R C) as Hs.
        apply set_len_zero in Hempty. rewrite Hempty in Hs.
        pose proof (lower_set_nonempty r Hr). fold R in H. lia. }
      apply Z.ltb_lt in Hfn. rewrite Hfn.
      cbn [app is_empty]. by rewrite join_first_char.
    - cbn [app is_empty]. by rewrite join_first_char. }
  split; [|done]. intros Heq. by rewrite Heq in Hfirst.
Qed.

Lemma details_never_perfect_match_witness :
  ∃ m, calculate_metrics ["Comfort"] ["Style"] = Some m ∧
       PyStr.first_char (details m) = Some "M"%char.
Proof.
  destruct (details_never_perfect_match ["Comfort"] ["Style"]) as (m & Hm & _ & Hfirst).
  exists m. split; [exact Hm|]. by apply Hfirst.
Defined.

End calculator_extras.

(** ** The aspect normalizer and the loaders *)

Section loader_extras.
Import PyStr PyStrFacts.

Lemma all_chars_app p s t :
  all_chars p (s +:+ t) = all_chars p s && all_chars p t.
Proof.
  induction s as [|c s IH]; [done|].
  rewrite app_cons. simpl. by rewrite IH, andb_assoc.
Qed.

Lemma all_chars_strip_by p q s : all_chars q s = true → all_chars q (strip_by p s) = true.
Proof.
  destruct (strip_by_spec p s) as (pre & post & Hs & _). intros Hq.
  rewrite Hs, !all_chars_app in Hq.
  by apply andb_true_iff in Hq as [_ [? _]%andb_true_iff].
Qed.

Lemma strip_empty_iff s : strip s = "" ↔ all_chars is_whitespace s = true.
Proof.
  split; [|apply strip_all_whitespace].
  destruct (strip_by_spec is_whitespace s) as (pre & post & Hs & Hpre & Hpost & _).
  fold (strip s) in Hs. intros Hempty. rewrite Hempty in Hs.
  rewrite Hs, all_chars_app, Hpre. by rewrite app_nil_l.
Qed.

Lemma rstrip_by_fixed p s :
  (∀ c, last_char s = Some c → p c = false) → rstrip_by p s = s.
Proof.
  induction s as [|c s IH]; [done|]. intros Hlast. simpl.
  destruct s as [|d s].
  - simpl. by rewrite (Hlast c).
  - rewrite IH; [done|]. exact Hlast.
Qed.

Lemma strip_by_fixed p s : clean_ends p s → strip_by p s = s.
Proof.
  intros [Hfirst Hlast]. unfold strip_by. rewrite rstrip_by_fixed by done.
  destruct s as [|c s]; [done|]. simpl. by rewrite (Hfirst c).
Qed.

Lemma canonical_props v :
  canonical v → v ≠ "" ∧ clean_ends is_whitespace v ∧ no_comma v.
Proof.
  unfold canonical. intros Hv.
  repeat (apply elem_of_cons in Hv as [-> | Hv];
          [split_and!; [done | split; by intros c [= <-] | reflexivity]|]).
  by apply elem_of_nil in Hv.
Qed.

Lemma normalize_cases x :
  (canonical (normalize_aspect_name x) ∧
   is_Some (mapping !! lower (strip x))) ∨
  (normalize_aspect_name x = strip x ∧ mapping !! lower (strip x) = None).
Proof.
  unfold normalize_aspect_name.
  destruct (mapping !! lower (strip x)) as [v|] eqn:Hx; [left|by right].
  split; [by eapply mapping_value_canonical | by eexists].
Qed.

Lemma normalize_clean x : clean_ends is_whitespace (normalize_aspect_name x).
Proof.
  destruct (normalize_cases x) as [[Hc _]|[-> _]].
  - by apply canonical_props in Hc as (_ & ? & _).
  - by destruct (strip_by_spec is_whitespace x) as (? & ? & _ & _ & _ & ?).
Qed.

Lemma normalize_no_comma x : no_comma x → no_comma (normalize_aspect_name x).
Proof.
  intros Hx. destruct (normalize_cases x) as [[Hc _]|[-> _]].
  - by apply canonical_props in Hc as (_ & _ & ?).
  - by apply all_chars_strip_by.
Qed.

Lemma normalize_empty_iff x :
  normalize_aspect_name x = "" ↔ all_chars is_whitespace x = true.
Proof.
  split; [|apply normalize_whitespace].
  destruct (normalize_cases x) as [[Hc _]|[-> _]].
  - apply canonical_props in Hc as (Hne & _). by intros ?.
  - apply strip_empty_iff.
Qed.

Lemma normalize_stored x :
  no_comma x → normalize_aspect_name x ≠ "" → stored_label (normalize_aspect_name x).
Proof.
  intros Hx Hne. split_and!; [done|apply normalize_idempotent|
    apply normalize_clean|by apply normalize_no_comma].
Qed.

(** X7: the normalizer never returns a string with white space at either
    end; it returns the empty string exactly for the inputs made of white
    space only; its result is a canonical label or the trimmed input; and
    it puts no comma into a string that has none. *)
Theorem normalize_aspect_name_output (x : string) :
  clean_ends is_whitespace (normalize_aspect_name x) ∧
  (normalize_aspect_name x = "" ↔ all_chars is_whitespace x = true) ∧
  (canonical (normalize_aspect_name x) ∨ normalize_aspect_name x = strip x) ∧
  (no_comma x → no_comma (normalize_aspect_name x)).
Proof.
  split_and!.
  - apply normalize_clean.
  - apply normalize_empty_iff.
  - destruct (normalize_cases x) as [[? _]|[? _]]; [by left | by right].
  - apply normalize_no_comma.
Qed.

Lemma normalize_aspect_name_output_witness :
  no_comma (normalize_aspect_name "  fit/sizing ").
Proof.
  apply (proj2 (proj2 (proj2 (normalize_aspect_name_output "  fit/sizing ")))).
  reflexivity.
Defined.

Lemma rita_row_aspects_stored (row : rita_row) :
  Forall stored_label (rita_row_aspects row).
Proof.
  unfold rita_row_aspects.
  pose proof (split_no_sep "," (row_Rita_Aspect row)) as Hparts.
  induction Hparts as [|piece pieces Hpiece _ IH]; [constructor|].
  rewrite fmap_cons. simpl.
  destruct (truthy (normalize_aspect_name piece)) eqn:Ht; [|done].
  constructor; [|done]. apply normalize_stored; [done|].
  intros Heq. by rewrite Heq in Ht.
Qed.

(** X8: every label list of the reference mapping holds stored labels
    only: none is empty, none has white space at its ends or a comma, and
    the normalizer leaves each as it is; and the keys of the mapping are
    the review identifiers of the rows, a row without any label included. *)
Theorem load_rita_aspects_invariant (rows : list rita_row) :
  (∀ rid labels, load_rita_aspects rows !! rid = Some labels →
                 Forall stored_label labels) ∧
  (∀ rid, is_Some (load_rita_aspects rows !! rid) ↔ rid ∈ row_Review_ID <$> rows).
Proof.
  split.
  - intros rid labels. rewrite load_rita_aspects_lookup.
    destruct (last _) as [row|]; [|done]. intros [= <-].
    apply rita_row_aspects_stored.
  - intros rid. rewrite load_rita_aspects_lookup, fmap_is_Some.
    rewrite list_elem_of_fmap. split.
    + intros [row Hrow]. apply last_Some_elem_of in Hrow.
      apply list_elem_of_filter in Hrow as [Hid Hin]. by exists row.
    + intros (row & -> & Hin).
      assert (row ∈ filter (λ row', row_Review_ID row' = row_Review_ID row) rows) as Hf
        by (by apply list_elem_of_filter).
      destruct (filter _ rows) as [|x l] eqn:Hfl using rev_ind; [by apply elem_of_nil in Hf|].
      rewrite last_snoc. by eexists.
Qed.

Lemma load_rita_aspects_invariant_witness :
  Forall stored_label ["Color/Aesthetics"; "New Label"].
Proof.
  apply (proj1 (load_rita_aspects_invariant [RitaRow "R1" " style , , New Label "]) "R1").
  reflexivity.
Defined.

Lemma gemini_line_entry_stored line k a :
  gemini_line_entry line = Some (k, a) →
  strip k = k ∧ no_comma k ∧ stored_label a.
Proof.
  unfold gemini_line_entry, gemini_line_fields.
  pose proof (split_no_sep "," (strip_quotes (strip line))) as Hparts.
  destruct (split _ _) as [|part0 [|part1 rest]]; [done..|]. simpl.
  apply Forall_cons in Hparts as [Hp0 [Hp1 _]%Forall_cons].
  destruct (truthy _) eqn:Ht; [|done]. intros [= <- <-].
  split_and!.
  - apply strip_idemp.
  - by apply all_chars_strip_by.
  - apply normalize_stored; [by apply all_chars_strip_by|].
    intros Heq. by rewrite Heq in Ht.
Qed.

Lemma gemini_labels_of_elem rid a lines :
  a ∈ gemini_labels_of rid lines →
  ∃ line, line ∈ lines ∧ gemini_line_entry line = Some (rid, a).
Proof.
  unfold gemini_labels_of. intros (line & Hin & Hline)%list_elem_of_omap.
  exists line. split; [done|].
  destruct (gemini_line_entry line) as [[k b]|]; [|done]. simpl in Hline.
  destruct (decide (k = rid)); by simplify_eq.
Qed.

(** X9: the candidate mapping holds no empty list: a key is present only
    with at least one label; every label is a stored label (not empty,
    trimmed, free of commas, fixed by the normalizer), and every key is a
    trimmed string with no comma in it. *)
Theorem load_gemini_aspects_invariant (lines : list string) (rid : string)
    (labels : list string) :
  load_gemini_aspects lines !! rid = Some labels →
  labels ≠ [] ∧ Forall stored_label labels ∧ strip rid = rid ∧ no_comma rid.
Proof.
  rewrite load_gemini_aspects_lookup.
  destruct (gemini_labels_of rid (drop 1 lines)) as [|a l] eqn:Hl; [done|].
  intros [= <-].
  assert (∀ b, b ∈ a :: l → strip rid = rid ∧ no_comma rid ∧ stored_label b) as Hall.
  { intros b Hb. rewrite <- Hl in Hb.
    apply gemini_labels_of_elem in Hb as (line & _ & Hentry).
    by apply gemini_line_entry_stored in Hentry. }
  split_and!; [done| |apply (Hall a); by left..].
  apply Forall_forall. intros b Hb. by apply Hall.
Qed.

Lemma load_gemini_aspects_invariant_witness :
  ["Sizing/Fit"; "Comfort"] ≠ [] ∧ Forall stored_label ["Sizing/Fit"; "Comfort"] ∧
  strip "RRE_001" = "RRE_001" ∧ no_comma "RRE_001".
Proof.
  apply (load_gemini_aspects_invariant
           ["Review_ID,Aspect"; " RRE_001 , fit/sizing ,negative"; "RRE_001,Comfort"]).
  reflexivity.
Defined.

(** X10: reading two batches of rows one after the other.  For the
    candidate file the label lists are concatenated key by key; for the
    reference file the later batch wins on every key it has. *)
Theorem loaders_of_concatenation :
  (∀ header lines1 lines2,
     load_gemini_aspects (header :: lines1 ++ lines2) =
       union_with (λ l1 l2, Some (l1 ++ l2))
         (load_gemini_aspects (header :: lines1))
         (load_gemini_aspects (header :: lines2))) ∧
  (∀ rows1 rows2 : list rita_row,
     load_rita_aspects (rows1 ++ rows2) =
       load_rita_aspects rows2 ∪ load_rita_aspects rows1).
Proof.
  split.
  - intros header lines1 lines2. apply map_eq. intros rid.
    rewrite lookup_union_with, !load_gemini_aspects_lookup.
    change (drop 1 (header :: lines1 ++ lines2)) with (lines1 ++ lines2).
    change (drop 1 (header :: lines1)) with lines1.
    change (drop 1 (header :: lines2)) with lines2.
    unfold gemini_labels_of. rewrite omap_app.
    destruct (omap _ lines1) as [|a l1]; [by destruct (omap _ lines2)|].
    destruct (omap _ lines2) as [|b l2]; [|done]. simpl. by rewrite List.app_nil_r.
  - intros rows1 rows2. apply map_eq. intros rid.
    rewrite lookup_union, !load_rita_aspects_lookup, filter_app.
    destruct (filter _ rows2) as [|row l] eqn:Hf using rev_ind.
    + rewrite List.app_nil_r. simpl. by destruct (last _).
    + rewrite (assoc_L (++)), !last_snoc. simpl. by rewrite union_Some_l.
Qed.

End loader_extras.

(** ** The audit driver *)

Section driver_extras.
Import PyNum PyNumFacts.

Lemma metrics_in_range (r c : list string) (m : metrics) :
  calculate_metrics r c = Some m →
  (0 <= recall m <= 1)%Q ∧ (0 <= precision m <= 1)%Q ∧ (0 <= f1 m <= 1)%Q ∧
  0 ≤ tp m ∧ 0 ≤ fn m ∧ 0 ≤ fp m ∧ tp m + fn m ≤ len r ∧ tp m + fp m ≤ len c.
Proof.
  destruct (decide (r = [])) as [->|Hr].
  { destruct c; intros [= <-]; simpl; unfold len; simpl; split_and!; (done || lia). }
  destruct (decide (c = [])) as [->|Hc].
  { destruct r; [done|]. intros [= <-]; simpl; unfold len; simpl;
      split_and!; (done || lia). }
  rewrite calculate_metrics_general by done. intros [= <-]. simpl.
  set (R := lower_set r). set (C := lower_set c).
  pose proof (set_len_split R C) as HR. pose proof (set_len_split C R) as HC.
  rewrite (set_len_intersection_comm C R) in HC.
  pose proof (set_len_nonneg (R ∩ C)). pose proof (set_len_nonneg (R ∖ C)).
  pose proof (set_len_nonneg (C ∖ R)).
  pose proof (set_len_list_le r). pose proof (set_len_list_le c).
  fold R C in H2, H3.
  assert (0 <= inject_Z (set_len (R ∩ C)) / inject_Z (set_len R) <= 1)%Q as Hrec.
  { apply ratio_bounds; [done|lia|by apply lower_set_nonempty]. }
  assert (0 <= inject_Z (set_len (R ∩ C)) / inject_Z (set_len C) <= 1)%Q as Hprec.
  { apply ratio_bounds; [done|lia|by apply lower_set_nonempty]. }
  split_and!; try apply Hrec; try apply Hprec; try lia.
  - destruct (Qltb _ _) eqn:E; [|done].
    apply harmonic_bounds; [done..|]. by apply Qltb_lt.
  - destruct (Qltb _ _) eqn:E; [|done].
    apply harmonic_bounds; [done..|]. by apply Qltb_lt.
Qed.

(** Rounding keeps a number on the side of an integer it is on. *)
Lemma round_half_even_between (q : Q) (lo hi : Z) :
  (inject_Z lo <= q)%Q → (q <= inject_Z hi)%Q →
  lo ≤ round_half_even q ≤ hi.
Proof.
  intros Hlo Hhi.
  assert (lo ≤ Qfloor q) as Hfl.
  { rewrite <- (Qfloor_Z lo). by apply Qfloor_resp_le. }
  assert (Qfloor q ≤ hi) as Hfh.
  { rewrite <- (Qfloor_Z hi). by apply Qfloor_resp_le. }
  pose proof (Qfloor_le q) as Hle.
  unfold round_half_even.
  destruct (Qltb (q - inject_Z (Qfloor q)) (1 # 2)) eqn:E1; [lia|].
  apply Qltb_ge in E1.
  assert (Qfloor q < hi).
  { destruct (Z.eq_dec (Qfloor q) hi) as [Heq|]; [|lia].
    rewrite Heq in E1. lra. }
  destruct (Qltb (1 # 2) _); [lia|]. destruct (Z.even _); lia.
Qed.

Lemma format_3f_range (x : Q) :
  (0 <= x <= 1)%Q → 0 ≤ thousandths (format_3f x) ≤ 1000.
Proof.
  intros [H0 H1]. unfold format_3f. simpl.
  apply round_half_even_between.
  - change (inject_Z 0) with 0%Q. lra.
  - change (inject_Z 1000) with 1000%Q. lra.
Qed.

(** X11: every row of the report is consistent: the two counts are the
    lengths of the label lists, a list with no label is shown as NONE,
    tp + fn and tp + fp do not exceed those counts, and the three metrics
    are printed between 0.000 and 1.000. *)
Theorem report_row_invariant (rita_data gemini_data : gmap string (list string))
    (review_id : string) (row : result_row) :
  row_of rita_data gemini_data review_id row →
  Review_ID row = review_id ∧
  Rita_Count row = len (default [] (rita_data !! review_id)) ∧
  Gemini_Count row = len (default [] (gemini_data !! review_id)) ∧
  (Rita_Count row = 0 → Rita_Aspects row = "NONE") ∧
  (Gemini_Count row = 0 → Gemini_Aspects row = "NONE") ∧
  0 ≤ True_Positives row ∧ 0 ≤ False_Negatives row ∧ 0 ≤ False_Positives row ∧
  True_Positives row + False_Negatives row ≤ Rita_Count row ∧
  True_Positives row + False_Positives row ≤ Gemini_Count row ∧
  0 ≤ thousandths (Recall row) ≤ 1000 ∧
  0 ≤ thousandths (Precision row) ≤ 1000 ∧
  0 ≤ thousandths (F1_Score row) ≤ 1000.
Proof.
  intros (m & Hm & ->). simpl.
  apply metrics_in_range in Hm
    as (Hrec & Hprec & Hf1 & Htp & Hfn & Hfp & Hr & Hc).
  assert (∀ l : list string, len l = 0 → aspects_cell l = "NONE") as Hcell.
  { intros [|a l]; [done|]. unfold len. simpl. lia. }
  split_and!; try done; try by apply Hcell.
  - by apply format_3f_range.
  - by apply format_3f_range.
  - by apply format_3f_range.
  - by apply format_3f_range.
  - by apply format_3f_range.
  - by apply format_3f_range.
Qed.

Lemma report_row_invariant_witness :
  ∃ row,
    row_of {["A" := ["Comfort"; "comfort"; "Style"]]} {["A" := ["Style"]]} "A" row ∧
    True_Positives row + False_Negatives row ≤ Rita_Count row ∧
    0 ≤ thousandths (F1_Score row) ≤ 1000.
Proof.
  eexists. split.
  - eexists. split; [by vm_compute | reflexivity].
  - match goal with |- context [True_Positives ?r] =>
      destruct (report_row_invariant
                  {["A" := ["Comfort"; "comfort"; "Style"]]} {["A" := ["Style"]]} "A" r)
        as (_ & _ & _ & _ & _ & _ & _ & _ & Hle & _ & _ & _ & Hf1) end.
    + eexists. split; [by vm_compute | reflexivity].
    + split; [exact Hle | exact Hf1].
Defined.

Lemma column_sum_snoc col rows row :
  column_sum col (rows ++ [row]) = column_sum col rows + col row.
Proof.
  unfold column_sum. rewrite fmap_app, foldr_app. simpl.
  generalize (col row). induction (col <$> rows) as [|x l IH]; intros z; simpl; [lia|].
  rewrite IH. lia.
Qed.

Lemma len_snoc {A} (l : list A) x : len (l ++ [x]) = len l + 1.
Proof. unfold len. rewrite length_app. simpl. lia. Qed.

Section loop.
Variables rita_data gemini_data : gmap string (list string).

Lemma audit_init_inv : audit_inv audit_init.
Proof. unfold audit_inv. simpl. split_and!; (done || lra). Qed.

Lemma audit_step_inv st review_id st' :
  audit_step rita_data gemini_data st review_id = Some st' →
  audit_inv st → audit_inv st'.
Proof.
  unfold audit_step.
  destruct (calculate_metrics _ _) as [m|] eqn:Hm; [|done]. simpl.
  intros [= <-] (Htp & Hfn & Hfp & Htp0 & Hfn0 & Hfp0 & Hr & Hp & Hf). simpl.
  apply metrics_in_range in Hm as (Hrec & Hprec & Hf1 & ? & ? & ? & _ & _).
  unfold audit_inv. simpl. rewrite !column_sum_snoc, len_snoc, inject_Z_plus. simpl.
  change (inject_Z 1) with 1%Q.
  split_and!; try lia; lra.
Qed.

Lemma audit_loop_inv ids st st' :
  audit_loop rita_data gemini_data st ids = Some st' →
  audit_inv st → audit_inv st'.
Proof.
  revert st. induction ids as [|review_id ids IH]; intros st; simpl.
  - by intros [= <-].
  - destruct (audit_step _ _ st review_id) as [st1|] eqn:Hstep; [|done]. simpl.
    intros Hloop Hinv. eapply IH; [done|]. by eapply audit_step_inv.
Qed.

Lemma macro_average_val total n : macro_average total n = Some (macro_val total n).
Proof.
  unfold macro_average, macro_val. destruct (Z.ltb_spec 0 n); [|done].
  by rewrite div_pos_Some.
Qed.

Lemma micro_ratio_val a b : micro_ratio a b = Some (micro_val a b).
Proof.
  unfold micro_ratio, micro_val. destruct (Z.ltb_spec 0 (a + b)); [|done].
  by rewrite div_pos_Some.
Qed.

Lemma micro_f1_of_val r p : micro_f1_of r p = Some (harmonic_val r p).
Proof. change (micro_f1_of r p) with (f1_of r p). apply f1_of_eq. Qed.

(** A run, with every division carried out. *)
Lemma audit_unfold :
  ∃ st mf,
    B64.micro_f1 (total_tp st) (total_fn st) (total_fp st) = Some mf ∧
    audit_inv st ∧
    Forall2 (row_of rita_data gemini_data)
      (all_reviews rita_data gemini_data) (results st) ∧
    audit rita_data gemini_data =
      Some {| artifact := write_results (results st);
              decision_metric := mf;
              verdict := decide_on mf (results st);
              returned :=
                Summary (macro_val (total_f1 st) (len (results st)))
                  (harmonic_val (micro_val (total_tp st) (total_fn st))
                                (micro_val (total_tp st) (total_fp st)))
                  (micro_val (total_tp st) (total_fn st))
                  (micro_val (total_tp st) (total_fp st))
                  (total_tp st) (total_fn st) (total_fp st) |}.
Proof.
  destruct (audit_loop_Some rita_data gemini_data
              (all_reviews rita_data gemini_data) audit_init)
    as (st & rows & Hloop & Hrows & Hres).
  simpl in Hres. subst rows.
  destruct (b64_micro_f1_Some (total_tp st) (total_fn st) (total_fp st))
    as [mf Hmf].
  exists st, mf. split_and!; [done| |done|].
  - eapply audit_loop_inv; [exact Hloop | apply audit_init_inv].
  - unfold audit. rewrite Hloop. simpl.
    rewrite !macro_average_val. simpl.
    rewrite !micro_ratio_val. simpl. rewrite micro_f1_of_val. simpl.
    by rewrite Hmf.
Qed.
End loop.

(** X12: the totals a run returns are the sums of the three count
    columns of the rows it writes, and none of them is negative. *)
Theorem summary_totals (rita_data gemini_data : gmap string (list string)) :
  ∃ out rows,
    audit rita_data gemini_data = Some out ∧
    artifact out = write_results rows ∧
    sum_tp (returned out) = column_sum True_Positives rows ∧
    sum_fn (returned out) = column_sum False_Negatives rows ∧
    sum_fp (returned out) = column_sum False_Positives rows ∧
    0 ≤ sum_tp (returned out) ∧ 0 ≤ sum_fn (returned out) ∧ 0 ≤ sum_fp (returned out).
Proof.
  destruct (audit_unfold rita_data gemini_data) as (st & mf & _ & Hinv & _ & ->).
  destruct Hinv as (? & ? & ? & ? & ? & ? & _).
  eexists _, (results st). split; [done|]. simpl. by split_and!.
Qed.

Lemma micro_val_range (t o : Z) : 0 ≤ t → 0 ≤ o → (0 <= micro_val t o <= 100)%Q.
Proof.
  intros Ht Ho. unfold micro_val. destruct (Z.ltb_spec 0 (t + o)); [|lra].
  pose proof (ratio_bounds t (t + o) Ht ltac:(lia) ltac:(lia)). lra.
Qed.

Lemma harmonic_val_range (r p : Q) :
  (0 <= r <= 100)%Q → (0 <= p <= 100)%Q → (0 <= harmonic_val r p <= 100)%Q.
Proof.
  intros [Hr0 Hr1] [Hp0 Hp1]. unfold harmonic_val.
  destruct (Qltb 0 (r + p)) eqn:E; [|lra]. apply Qltb_lt in E. split.
  - apply Qle_shift_div_l; [done|]. nra.
  - apply Qle_shift_div_r; [done|]. nra.
Qed.

Lemma macro_val_range (total : Q) (n : Z) :
  (0 <= total <= inject_Z n)%Q → (0 <= macro_val total n <= 100)%Q.
Proof.
  intros [H0 H1]. unfold macro_val. destruct (Z.ltb_spec 0 n); [|lra].
  pose proof (inject_Z_pos n ltac:(done)) as Hn.
  assert (0 <= total / inject_Z n <= 1)%Q; [|lra]. split.
  - apply Qle_shift_div_l; [done|]. lra.
  - apply Qle_shift_div_r; [done|]. lra.
Qed.

(** X13: the four percentages a run returns, macro-F1, micro-F1, micro
    recall and micro precision, lie between 0 and 100. *)
Theorem summary_percentages (rita_data gemini_data : gmap string (list string)) :
  ∃ out,
    audit rita_data gemini_data = Some out ∧
    (0 <= macro_f1 (returned out) <= 100)%Q ∧
    (0 <= micro_f1 (returned out) <= 100)%Q ∧
    (0 <= micro_recall (returned out) <= 100)%Q ∧
    (0 <= micro_precision (returned out) <= 100)%Q.
Proof.
  destruct (audit_unfold rita_data gemini_data) as (st & mf & _ & Hinv & _ & ->).
  destruct Hinv as (_ & _ & _ & Htp & Hfn & Hfp & _ & _ & Hf1).
  eexists. split; [done|]. simpl.
  pose proof (micro_val_range _ _ Htp Hfn). pose proof (micro_val_range _ _ Htp Hfp).
  split; [by apply macro_val_range|].
  split; [by apply harmonic_val_range|]. by split.
Qed.

Lemma load_gemini_aspects_nothing (lines : list string) :
  Forall (λ line, gemini_line_entry line = None) (drop 1 lines) →
  load_gemini_aspects lines = ∅.
Proof.
  intros Hnone. apply map_eq. intros rid.
  rewrite load_gemini_aspects_lookup, lookup_empty.
  assert (gemini_labels_of rid (drop 1 lines) = []) as ->; [|done].
  induction Hnone as [|line rest Hline _ IH]; [done|].
  by rewrite gemini_labels_of_cons, Hline.
Qed.

(** X15: a run with nothing to compare ends normally.  With no reference
    row and a candidate file whose lines all fall out (too few columns, or
    a blank label), no division is attempted: the file is written empty,
    every number of the summary is 0, and the negative branch is taken
    with no review listed. *)
Theorem run_audit_nothing_to_compare (gemini_csv : list string) :
  Forall (λ line, gemini_line_entry line = None) (drop 1 gemini_csv) →
  run_audit [] gemini_csv =
    Some {| artifact := []; decision_metric := B64.zero; verdict := RedFlag [];
            returned := Summary 0 0 0 0 0 0 0 |}.
Proof.
  intros Hnone. unfold run_audit.
  by rewrite (load_gemini_aspects_nothing _ Hnone).
Qed.

Lemma run_audit_nothing_to_compare_witness :
  run_audit [] ["Review_ID,Aspect,Sentiment"; "no columns here"; "R1,   ,negative"] =
    Some {| artifact := []; decision_metric := B64.zero; verdict := RedFlag [];
            returned := Summary 0 0 0 0 0 0 0 |}.
Proof.
  apply run_audit_nothing_to_compare. repeat constructor.
Defined.

(** X16: a review known to one source only.  If the candidate mapping has
    no entry for it, the row shows NONE for the candidate, tp = fp = 0 and
    fn equal to the reference count; its F1 is printed 0.000, except that a
    reference entry with no label at all is scored 1.000.  The same holds
    with the two sources exchanged. *)
Theorem one_sided_row (rita_data gemini_data : gmap string (list string))
    (review_id : string) (row : result_row) :
  row_of rita_data gemini_data review_id row →
  (gemini_data !! review_id = None →
     Gemini_Aspects row = "NONE" ∧ Gemini_Count row = 0 ∧
     True_Positives row = 0 ∧ False_Positives row = 0 ∧
     False_Negatives row = Rita_Count row ∧
     thousandths (F1_Score row) =
       if is_empty (default [] (rita_data !! review_id)) then 1000 else 0) ∧
  (rita_data !! review_id = None →
     Rita_Aspects row = "NONE" ∧ Rita_Count row = 0 ∧
     True_Positives row = 0 ∧ False_Negatives row = 0 ∧
     False_Positives row = Gemini_Count row ∧
     thousandths (F1_Score row) =
       if is_empty (default [] (gemini_data !! review_id)) then 1000 else 0).
Proof.
  intros (m & Hm & ->). split; intros Hnone; rewrite Hnone in *; simpl in *.
  - destruct (default [] (rita_data !! review_id)) as [|a l];
      injection Hm as <-; by split_and!.
  - destruct (default [] (gemini_data !! review_id)) as [|a l];
      injection Hm as <-; by split_and!.
Qed.

Lemma one_sided_row_witness :
  ∃ row,
    row_of {["A" := ["Comfort"]; "B" := []]} ∅ "B" row ∧
    Gemini_Aspects row = "NONE" ∧ thousandths (F1_Score row) = 1000.
Proof.
  eexists. split.
  - eexists. split; [by vm_compute | reflexivity].
  - match goal with |- context [Gemini_Aspects ?r] =>
      destruct (one_sided_row {["A" := ["Comfort"]; "B" := []]} ∅ "B" r) as [Hleft _] end.
    + eexists. split; [by vm_compute | reflexivity].
    + destruct Hleft as (Hcell & _ & _ & _ & _ & Hf1); [done|].
      split; [exact Hcell | exact Hf1].
Defined.

Section stable.
Context {A : Type} (key : A → Q) (R2 : relation A).
Local Abbreviation lex_le := (lex_le key R2).

Lemma lex_le_intro a b : (key a <= key b)%Q → R2 a b → lex_le a b.
Proof.
  intros Hle HR. apply Qle_lteq in Hle as [Hlt|Heq]; [by left | by right].
Qed.

Lemma lex_le_key a b : lex_le a b → (key a <= key b)%Q.
Proof.
  intros [Hlt|[Heq _]]; [by apply Qlt_le_weak|]. rewrite Heq. apply Qle_refl.
Qed.

Lemma insert_by_key_stable x l :
  StronglySorted lex_le l → Forall (R2 x) l →
  StronglySorted lex_le (insert_by_key key x l).
Proof.
  induction l as [|y l IH]; simpl; intros Hl HR.
  - by repeat constructor.
  - apply StronglySorted_cons in Hl as [Hy Hl].
    apply Forall_cons in HR as [HRy HRl].
    destruct (Qle_bool (key x) (key y)) eqn:Hxy.
    + apply Qle_bool_iff in Hxy. constructor; [by constructor|].
      constructor; [by apply lex_le_intro|].
      rewrite Forall_forall in Hy, HRl. apply Forall_forall. intros z Hz.
      apply lex_le_intro; [|by apply HRl].
      eapply Qle_trans; [exact Hxy|]. by apply lex_le_key, Hy.
    + constructor; [by apply IH|].
      rewrite insert_by_key_Permutation. constructor; [|done].
      left. apply Qnot_le_lt. intros Hle%Qle_bool_iff. congruence.
Qed.

(** The sort is stable: what was in [R2] order stays so among equal keys. *)
Lemma sorted_by_key_stable l :
  StronglySorted R2 l → StronglySorted lex_le (sorted_by_key key l).
Proof.
  induction l as [|x l IH]; simpl; [constructor|]. intros Hl.
  apply StronglySorted_cons in Hl as [Hx Hl].
  apply insert_by_key_stable; [by apply IH|].
  by rewrite sorted_by_key_Permutation.
Qed.
End stable.

Lemma StronglySorted_fmap_inv {A B} (f : A → B) (R : relation B) (l : list A) :
  StronglySorted R (f <$> l) → StronglySorted (λ a b, R (f a) (f b)) l.
Proof.
  induction l as [|x l IH]; [constructor|]. rewrite fmap_cons.
  intros [Hx Hl]%StronglySorted_cons. constructor; [by apply IH|].
  rewrite Forall_forall in Hx. apply Forall_forall. intros y Hy.
  apply Hx, list_elem_of_fmap. by exists y.
Qed.

(** X17: in the listing of worst reviews, rows with the same printed F1
    stand in ascending order of review identifier: the listing is ordered
    by printed F1 first and by identifier second. *)
Theorem worst_cases_ties (rita_data gemini_data : gmap string (list string)) :
  ∃ out rows,
    audit rita_data gemini_data = Some out ∧
    artifact out = write_results rows ∧
    StronglySorted listing_le (worst_cases rows) ∧
    (B64.leb (B64.of_int 80) (decision_metric out) = false →
     verdict out = RedFlag (worst_cases rows)).
Proof.
  destruct (audit_unfold rita_data gemini_data) as (st & mf & _ & _ & Hrows & ->).
  eexists _, (results st). split; [done|].
  cbn [artifact verdict decision_metric]. split; [done|].
  split.
  - rewrite worst_cases_eq.
    apply take_StronglySorted, filter_StronglySorted.
    apply (sorted_by_key_stable f1_key (λ a b, String.le (Review_ID a) (Review_ID b))).
    destruct (all_reviews_spec rita_data gemini_data) as (Hsorted & _ & _).
    apply Sorted_StronglySorted in Hsorted; [|apply _].
    assert (Review_ID <$> results st = all_reviews rita_data gemini_data) as Hids.
    { clear -Hrows. induction Hrows as [|x row ids rows Hrow _ IH]; [done|].
      rewrite fmap_cons, IH. f_equal. by eapply row_of_Review_ID. }
    rewrite <- Hids in Hsorted. by apply StronglySorted_fmap_inv.
  - intros Hlt. unfold decide_on. by rewrite Hlt.
Qed.

(** Reviews B and C both score 0.000: the run fails and lists them. *)
Lemma worst_cases_ties_witness :
  ∃ out rows,
    run_audit [RitaRow "A" "a,b"; RitaRow "B" "x"]
              ["Review_ID,Aspect"; "A,a"; "C,z"] = Some out ∧
    StronglySorted listing_le (worst_cases rows) ∧
    verdict out = RedFlag (worst_cases rows).
Proof.
  destruct (worst_cases_ties
              (load_rita_aspects [RitaRow "A" "a,b"; RitaRow "B" "x"])
              (load_gemini_aspects ["Review_ID,Aspect"; "A,a"; "C,z"]))
    as (out & rows & Hout & _ & Hsorted & Hred).
  exists out, rows. split; [exact Hout|]. split; [exact Hsorted|].
  apply Hred. vm_compute in Hout. injection Hout as <-. by vm_compute.
Defined.

End driver_extras.

(** ** From the report back to the loader *)

Section reread.
Import PyStr PyStrFacts.

Lemma split_no_comma x : no_comma x → split "," x = [x].
Proof.
  unfold no_comma. induction x as [|c x IH]; [done|]. simpl.
  intros [Hc Hx]%andb_true_iff. apply negb_true_iff in Hc. rewrite Hc.
  by rewrite IH.
Qed.

Lemma split_app_comma x rest :
  no_comma x → split "," (x +:+ String "," rest) = x :: split "," rest.
Proof.
  unfold no_comma. induction x as [|c x IH]; [done|].
  rewrite app_cons. simpl.
  intros [Hc Hx]%andb_true_iff. apply negb_true_iff in Hc. rewrite Hc.
  by rewrite IH.
Qed.

Lemma split_join_comma_space x l :
  Forall no_comma (x :: l) →
  split "," (join ", " (x :: l)) = x :: (String " " <$> l).
Proof.
  revert x. induction l as [|y l IH]; intros x [Hx Hl]%Forall_cons.
  - by apply split_no_comma.
  - change (join ", " (x :: y :: l))
      with (x +:+ String "," (String " " (join ", " (y :: l)))).
    rewrite split_app_comma by done.
    change (split "," (String " " (join ", " (y :: l))))
      with (match split "," (join ", " (y :: l)) with
            | [] => [String " " ""]
            | p :: ps => String " " p :: ps
            end).
    by rewrite IH.
Qed.

Lemma strip_space_label a : stored_label a → strip (String " " a) = a.
Proof.
  intros (Hne & _ & [Hfirst Hlast] & _). unfold strip, strip_by.
  rewrite rstrip_by_fixed.
  - destruct a as [|c a]; [done|]. simpl. by rewrite (Hfirst c).
  - destruct a as [|c a]; [done|]. exact Hlast.
Qed.

Lemma normalize_space_label a :
  stored_label a → normalize_aspect_name (String " " a) = a.
Proof.
  intros Ha. pose proof Ha as (_ & Hfix & Hclean & _).
  unfold normalize_aspect_name in *.
  rewrite strip_space_label by done.
  by rewrite (strip_by_fixed is_whitespace a Hclean : strip a = a) in Hfix.
Qed.

(** X18: the report's label cells can be read back.  A list of stored
    labels, written as a cell (joined by a comma and a space) and read as
    the aspect field of a reference row, comes back as it was; the empty
    list is written NONE and comes back as the one label NONE. *)
Theorem report_cell_reread (review_id : string) (labels : list string) :
  Forall stored_label labels →
  rita_row_aspects (RitaRow review_id (aspects_cell labels)) =
    if is_empty labels then ["NONE"] else labels.
Proof.
  intros Hl. destruct labels as [|x l]; [done|].
  change (aspects_cell (x :: l)) with (join ", " (x :: l)).
  change (is_empty (x :: l)) with false. cbv iota.
  unfold rita_row_aspects. cbn [row_Rita_Aspect].
  rewrite split_join_comma_space.
  2:{ eapply Forall_impl; [exact Hl|]. by intros a (_ & _ & _ & ?). }
  apply Forall_cons in Hl as [Hx Hl]. rewrite fmap_cons.
  assert (normalize_aspect_name x = x) as -> by apply Hx.
  assert (truthy x = true) as Htx by (destruct Hx as [? _]; by destruct x).
  simpl. rewrite Htx. f_equal.
  induction Hl as [|a l Ha _ IH]; [done|].
  rewrite !fmap_cons. simpl. rewrite normalize_space_label by done.
  assert (truthy a = true) as -> by (destruct Ha as [? _]; by destruct a).
  by rewrite IH.
Qed.

Lemma report_cell_reread_witness :
  rita_row_aspects (RitaRow "R1" (aspects_cell ["Sizing/Fit"; "New Label"])) =
    ["Sizing/Fit"; "New Label"].
Proof.
  apply (report_cell_reread "R1" ["Sizing/Fit"; "New Label"]).
  repeat constructor; try done; by intros c [= <-].
Defined.

End reread.

(** * The decision *)

Section decision_facts.
Import SpecFloat.









End decision_facts.
